(** * Country API: the refresh pipeline of [controller.js] and the record
    normaliser of [utils.js], embedded and checked against the written
    specification.

    Conventions of the embedding.

    - JavaScript values are the values [response.json()] delivers (null,
      booleans, numbers, strings, arrays, plain objects) together with
      [undefined].  They are finite trees: no sharing and no cycles, as
      for every parsed JSON document.
    - Numbers are exact rationals extended with NaN and the two
      infinities; the rounding of binary64 arithmetic is not modelled.
    - Only own properties are modelled; names inherited from
      [Object.prototype] and friends are outside the model.
    - The conversions the language runtime performs on strings, arrays and
      objects ([ToNumber], [ToPropertyKey]) are parameters ([Runtime]).
    - Arrays are dense, as JSON delivers them: no holes.
    - The MySQL table [countries] is a list of typed rows in insertion
      order.  The surrogate [id] column, column widths and decimal scales
      are left out, and names are compared exactly (no collation): no
      statement of the code depends on them.
    - Query parameters of a request are strings or absent. *)

From Stdlib Require Import List String Bool Arith ZArith QArith Qround.
From Stdlib Require Import Lia Sorted Permutation DecimalString DecimalNat FinFun.
Import ListNotations.

Local Open Scope string_scope.
Local Open Scope list_scope.

(** ** JavaScript values *)

Inductive number : Type :=
| Fin (q : Q)
| NaN
| PInf
| NInf.

Unset Elimination Schemes.
Inductive value : Type :=
| VUndefined
| VNull
| VBool (b : bool)
| VNum (n : number)
| VStr (s : string)
| VArr (items : list value) (props : list (string * value))
| VObj (props : list (string * value)).
Set Elimination Schemes.

(** Induction over the tree of a value: array items and property values
    are covered by the hypothesis. *)
Section ValueInd.
Variable P : value -> Prop.
Hypothesis Hundefined : P VUndefined.
Hypothesis Hnull : P VNull.
Hypothesis Hbool : forall b, P (VBool b).
Hypothesis Hnum : forall n, P (VNum n).
Hypothesis Hstr : forall s, P (VStr s).
Hypothesis Harr : forall items props,
    Forall P items -> Forall (fun kv => P (snd kv)) props ->
    P (VArr items props).
Hypothesis Hobj : forall props,
    Forall (fun kv => P (snd kv)) props -> P (VObj props).

Fixpoint value_ind (v : value) : P v :=
  let on_items :=
      fix on_items (l : list value) : Forall P l :=
        match l with
        | [] => Forall_nil _
        | x :: r => Forall_cons x (value_ind x) (on_items r)
        end in
  let on_props :=
      fix on_props (l : list (string * value))
        : Forall (fun kv => P (snd kv)) l :=
        match l with
        | [] => Forall_nil _
        | kv :: r =>
          @Forall_cons _ (fun kv => P (snd kv)) kv r
                       (value_ind (snd kv)) (on_props r)
        end in
  match v with
  | VUndefined => Hundefined
  | VNull => Hnull
  | VBool b => Hbool b
  | VNum n => Hnum n
  | VStr s => Hstr s
  | VArr items props => Harr items props (on_items items) (on_props props)
  | VObj props => Hobj props (on_props props)
  end.
End ValueInd.

(** [typeof v] *)
Definition typeof (v : value) : string :=
  match v with
  | VUndefined => "undefined"
  | VNull => "object"
  | VBool _ => "boolean"
  | VNum _ => "number"
  | VStr _ => "string"
  | VArr _ _ => "object"
  | VObj _ => "object"
  end.

(** [ToBoolean v]: the test an [if], [&&] or [?:] applies. *)
Definition truthy (v : value) : bool :=
  match v with
  | VUndefined | VNull => false
  | VBool b => b
  | VNum (Fin q) => negb (Qeq_bool q 0)
  | VNum NaN => false
  | VNum _ => true
  | VStr s => negb (s =? EmptyString)
  | VArr _ _ | VObj _ => true
  end.

Definition isArray (v : value) : bool :=
  match v with VArr _ _ => true | _ => false end.

(** [v === undefined], [v !== null], [v == null] *)
Definition is_undefined (v : value) : bool :=
  match v with VUndefined => true | _ => false end.
Definition is_null (v : value) : bool :=
  match v with VNull => true | _ => false end.
Definition nullish (v : value) : bool := is_undefined v || is_null v.

(** The guard of [replaceUndefined]: [obj && typeof obj === "object"]. *)
Definition is_object (v : value) : bool :=
  truthy v && (typeof v =? "object").

(** ** Own properties *)

Definition string_of_nat (n : nat) : string :=
  NilEmpty.string_of_uint (Nat.to_uint n).

Fixpoint assoc (k : string) (props : list (string * value)) : option value :=
  match props with
  | [] => None
  | (k', v) :: rest => if k' =? k then Some v else assoc k rest
  end.

(** The index below [len] whose canonical decimal spelling is [k]. *)
Definition own_index (k : string) (len : nat) : option nat :=
  find (fun i => string_of_nat i =? k) (seq 0 len).

Definition num_of_nat (n : nat) : value := VNum (Fin (inject_Z (Z.of_nat n))).

Definition char_at (s : string) (i : nat) : option value :=
  match String.get i s with
  | Some c => Some (VStr (String c EmptyString))
  | None => None
  end.

(** The own property [k] of [v], when there is one. *)
Definition get_own (v : value) (k : string) : option value :=
  match v with
  | VObj props => assoc k props
  | VArr items props =>
    match own_index k (List.length items) with
    | Some i => nth_error items i
    | None => if k =? "length" then Some (num_of_nat (List.length items))
              else assoc k props
    end
  | VStr s =>
    match own_index k (String.length s) with
    | Some i => char_at s i
    | None => if k =? "length" then Some (num_of_nat (String.length s))
              else None
    end
  | _ => None
  end.

(** [k in v] for an object or array [v]. *)
Definition has_property (v : value) (k : string) : bool :=
  match get_own v k with Some _ => true | None => false end.

Fixpoint assoc_set (k : string) (x : value) (props : list (string * value))
  : list (string * value) :=
  match props with
  | [] => [(k, x)]
  | (k', v) :: rest =>
    if k' =? k then (k', x) :: rest else (k', v) :: assoc_set k x rest
  end.

Fixpoint list_set (i : nat) (x : value) (l : list value) : list value :=
  match l, i with
  | [], _ => []
  | _ :: r, O => x :: r
  | y :: r, S j => y :: list_set j x r
  end.

(** [v[k] = x] on an object or array.  A key that is not an index of the
    array is kept among its named properties. *)
Definition set_property (v : value) (k : string) (x : value) : value :=
  match v with
  | VObj props => VObj (assoc_set k x props)
  | VArr items props =>
    match own_index k (List.length items) with
    | Some i => VArr (list_set i x items) props
    | None => VArr items (assoc_set k x props)
    end
  | _ => v
  end.

(** ** utils.js: [replaceUndefined] *)

(** The callback of [obj[key].map(...)]: an object or array item is
    normalised by the function itself, an undefined item becomes null. *)
Definition map_item (self : value -> value) (item : value) : value :=
  match item with
  | VArr _ _ | VObj _ => self item
  | VUndefined => VNull
  | _ => item
  end.

(** The body of [for (const key in obj)], as the new value of [obj[key]].
    [Array.prototype.map] builds a fresh array: named properties of the
    old one are not carried over. *)
Definition visit_key (self : value -> value) (v : value) : value :=
  match v with
  | VUndefined => VNull
  | VArr items _ => VArr (map (map_item self) items) []
  | VObj _ => self v
  | _ => v
  end.

(** [for (const key of requiredKeys) if (!(key in obj)) obj[key] = null] *)
Definition ensure_keys (requiredKeys : list string) (obj : value) : value :=
  fold_left (fun o key =>
               if negb (has_property o key)
               then set_property o key VNull else o)
            requiredKeys obj.

(** The recursive calls of the source pass no second argument, so
    [requiredKeys] is [[]] there. *)
Fixpoint replaceUndefined (obj : value) (requiredKeys : list string)
         {struct obj} : value :=
  let self := fun o => replaceUndefined o [] in
  match obj with
  | VObj props =>
    ensure_keys requiredKeys
      (VObj (map (fun kv => (fst kv, visit_key self (snd kv))) props))
  | VArr items props =>
    ensure_keys requiredKeys
      (VArr (map (visit_key self) items)
            (map (fun kv => (fst kv, visit_key self (snd kv))) props))
  | _ => obj
  end.




(** ** Numbers and the runtime's conversions *)

Definition sign_inf (c : comparison) : number :=
  match c with Eq => NaN | Gt => PInf | Lt => NInf end.

Definition num_neg (n : number) : number :=
  match n with Fin q => Fin (- q) | NaN => NaN | PInf => NInf | NInf => PInf end.

(** [a * b] *)
Definition num_mul (a b : number) : number :=
  match a, b with
  | NaN, _ | _, NaN => NaN
  | Fin x, Fin y => Fin (x * y)
  | Fin x, PInf | PInf, Fin x => sign_inf (x ?= 0)%Q
  | Fin x, NInf | NInf, Fin x => num_neg (sign_inf (x ?= 0)%Q)
  | PInf, PInf | NInf, NInf => PInf
  | PInf, NInf | NInf, PInf => NInf
  end.

(** [a / b]; a zero divisor counts as positive zero. *)
Definition num_div (a b : number) : number :=
  match a, b with
  | NaN, _ | _, NaN => NaN
  | Fin x, Fin y =>
    if Qeq_bool y 0 then sign_inf (x ?= 0)%Q else Fin (x / y)
  | Fin _, _ => Fin 0
  | PInf, Fin y => match (y ?= 0)%Q with Lt => NInf | _ => PInf end
  | NInf, Fin y => match (y ?= 0)%Q with Lt => PInf | _ => NInf end
  | _, _ => NaN
  end.

(** The nine values handed to [pool.execute]. *)
Record params : Type := {
  p_name : value;
  p_capital : value;
  p_region : value;
  p_population : value;
  p_currency_code : value;
  p_exchange_rate : value;
  p_estimated_gdp : value;
  p_flag_url : value;
  p_last_refreshed_at : nat
}.

(** ** The table [countries]

    [CREATE TABLE IF NOT EXISTS countries (... name VARCHAR(100) NOT NULL
    UNIQUE, ..., created_at TIMESTAMP DEFAULT CURRENT_TIMESTAMP)]: text and
    numeric columns are nullable except [name]. *)
Module Countries.

Definition time : Type := nat.

Record row : Type := {
  name : string;
  capital : option string;
  region : option string;
  population : option Q;
  currency_code : option string;
  exchange_rate : option Q;
  estimated_gdp : option Q;
  flag_url : option string;
  last_refreshed_at : time;
  created_at : time
}.

Definition table : Type := list row.

(** The [VALUES (?, ?, ?, ?, ?, ?, ?, ?, ?)] list once the parameters are
    bound to the column types. *)
Record new_values : Type := {
  v_name : string;
  v_capital : option string;
  v_region : option string;
  v_population : option Q;
  v_currency_code : option string;
  v_exchange_rate : option Q;
  v_estimated_gdp : option Q;
  v_flag_url : option string;
  v_last_refreshed_at : time
}.

(** Binding a JavaScript value to a text or numeric column.  [None]: the
    statement is refused.  Values the column type excludes are refused
    here; the implicit conversions of MySQL are not modelled. *)
Definition bind_text (v : value) : option (option string) :=
  match v with
  | VNull => Some None
  | VStr s => Some (Some s)
  | _ => None
  end.

Definition bind_num (v : value) : option (option Q) :=
  match v with
  | VNull => Some None
  | VNum (Fin q) => Some (Some q)
  | _ => None
  end.

(** [name] is NOT NULL. *)
Definition bind_name (v : value) : option string :=
  match v with
  | VStr s => Some s
  | _ => None
  end.

Definition bind_params (p : params) : option new_values :=
  match bind_name (p_name p), bind_text (p_capital p),
        bind_text (p_region p), bind_num (p_population p),
        bind_text (p_currency_code p), bind_num (p_exchange_rate p),
        bind_num (p_estimated_gdp p), bind_text (p_flag_url p) with
  | Some n, Some c, Some r, Some po, Some cc, Some er, Some g, Some f =>
    Some {| v_name := n; v_capital := c; v_region := r; v_population := po;
            v_currency_code := cc; v_exchange_rate := er;
            v_estimated_gdp := g; v_flag_url := f;
            v_last_refreshed_at := p_last_refreshed_at p |}
  | _, _, _, _, _, _, _, _ => None
  end.

(** The row an [INSERT] creates: [created_at] takes its default, the
    clock of the store. *)
Definition inserted (now : time) (v : new_values) : row :=
  {| name := v_name v;
     capital := v_capital v;
     region := v_region v;
     population := v_population v;
     currency_code := v_currency_code v;
     exchange_rate := v_exchange_rate v;
     estimated_gdp := v_estimated_gdp v;
     flag_url := v_flag_url v;
     last_refreshed_at := v_last_refreshed_at v;
     created_at := now |}.

(** [ON DUPLICATE KEY UPDATE capital = VALUES(capital), ...,
    last_refreshed_at = VALUES(last_refreshed_at)]: the eight columns
    listed are assigned, [name] and [created_at] are not. *)
Definition updated (r : row) (v : new_values) : row :=
  {| name := name r;
     capital := v_capital v;
     region := v_region v;
     population := v_population v;
     currency_code := v_currency_code v;
     exchange_rate := v_exchange_rate v;
     estimated_gdp := v_estimated_gdp v;
     flag_url := v_flag_url v;
     last_refreshed_at := v_last_refreshed_at v;
     created_at := created_at r |}.

(** [INSERT INTO countries (...) VALUES (...) ON DUPLICATE KEY UPDATE ...]
    under the unique key on [name]. *)
Fixpoint upsert (now : time) (v : new_values) (t : table) : table :=
  match t with
  | [] => [inserted now v]
  | r :: rest =>
    if name r =? v_name v then updated r v :: rest
    else r :: upsert now v rest
  end.

(** A series of such statements, each with the clock of the store at
    its time, in order. *)
Definition upserts (l : list (time * new_values)) (t : table) : table :=
  fold_left (fun t nv => upsert (fst nv) (snd nv) t) l t.

(** [SELECT * FROM countries WHERE name = ?] *)
Definition select_by_name (n : string) (t : table) : table :=
  filter (fun r => name r =? n) t.

(** [DELETE FROM countries WHERE name = ?] *)
Definition delete_by_name (n : string) (t : table) : table :=
  filter (fun r => negb (name r =? n)) t.

(** [column = ?] on a nullable text column: NULL equals nothing. *)
Definition text_is (x : string) (c : option string) : bool :=
  match c with
  | Some s => s =? x
  | None => false
  end.

(** [SELECT * FROM countries WHERE c1 AND c2 ...] *)
Definition select_where (conditions : list (row -> bool)) (t : table)
  : table :=
  filter (fun r => forallb (fun c => c r) conditions) t.

(** [a] may stand before [b] under [ORDER BY ... DESC]: MySQL ranks NULL
    below every number, so NULL comes last in descending order. *)
Definition gdp_ge (a b : option Q) : bool :=
  match a, b with
  | _, None => true
  | None, Some _ => false
  | Some x, Some y => Qle_bool y x
  end.

Fixpoint insert_desc (r : row) (sorted : list row) : list row :=
  match sorted with
  | [] => [r]
  | x :: rest =>
    if gdp_ge (estimated_gdp r) (estimated_gdp x) then r :: sorted
    else x :: insert_desc r rest
  end.

(** [... ORDER BY estimated_gdp DESC] *)
Definition order_by_estimated_gdp_desc (t : list row) : list row :=
  fold_right insert_desc [] t.

(** [SELECT name, estimated_gdp FROM countries
     ORDER BY estimated_gdp DESC LIMIT 5] *)
Definition select_top5 (t : table) : list (string * option Q) :=
  map (fun r => (name r, estimated_gdp r))
      (firstn 5 (order_by_estimated_gdp_desc t)).

(** A list in the order [ORDER BY estimated_gdp DESC] asks for. *)
Definition desc_sorted (l : list row) : Prop :=
  StronglySorted
    (fun a b => gdp_ge (estimated_gdp a) (estimated_gdp b) = true) l.


Definition unique_names (t : table) : Prop := NoDup (map name t).

Definition has_name (n : string) (t : table) : Prop := In n (map name t).

End Countries.

(** What the runtime does with a string, an array or an object where a
    number or a property key is wanted. *)
Class Runtime : Type := {
  to_number_other : value -> number;
  to_key_other : value -> string
}.

Section Program.
Context {rt : Runtime}.

(** [ToNumber v] *)
Definition to_number (v : value) : number :=
  match v with
  | VUndefined => NaN
  | VNull => Fin 0
  | VBool true => Fin 1
  | VBool false => Fin 0
  | VNum n => n
  | _ => to_number_other v
  end.

(** [ToPropertyKey v] *)
Definition to_key (v : value) : string :=
  match v with
  | VStr s => s
  | _ => to_key_other v
  end.

(** ** Exceptions *)

Inductive error : Type :=
| TypeError      (* property access on null or undefined, bad bind value *)
| FetchError     (* fetch() rejected: no response at all *)
| SyntaxError    (* response.json() rejected: the body is not JSON *)
| StoreError     (* the store is unreachable or refuses the statement *)
| RenderError.   (* the summary image could not be written *)

Definition result (A : Type) : Type := (error + A)%type.

Definition ret {A : Type} (a : A) : result A := inr a.
Definition throw {A : Type} (e : error) : result A := inl e.
Definition bind {A B : Type} (c : result A) (k : A -> result B) : result B :=
  match c with
  | inl e => inl e
  | inr a => k a
  end.

Notation "x <- c ;; k" := (bind c (fun x => k))
  (at level 61, c at next level, right associativity).

(** [v[k]]: throws on null and undefined, yields undefined for a missing
    property. *)
Definition get (v : value) (k : string) : result value :=
  if nullish v then throw TypeError
  else ret (match get_own v k with Some x => x | None => VUndefined end).

(** [v?.[k]] *)
Definition opt_get (v : value) (k : string) : value :=
  if nullish v then VUndefined
  else match get_own v k with Some x => x | None => VUndefined end.

(** [a ?? b] *)
Definition coalesce (a b : value) : value := if nullish a then b else a.

(** ** controller.js: the record derived from one country *)

Definition requiredKeys : list string :=
  ["name"; "capital"; "region"; "population"; "currencies"; "flag"].

(** [currencies?.[0]?.code ?? null] *)
Definition currencyCode (currencies : value) : value :=
  coalesce (opt_get (opt_get currencies (string_of_nat 0)) "code") VNull.

(** [currencyCode ? (exchangeRateData[currencyCode]
                     ? exchangeRateData[currencyCode] : null) : null] *)
Definition exchange_rate (code exchangeRateData : value) : result value :=
  if truthy code then
    x <- get exchangeRateData (to_key code) ;;
    ret (if truthy x then x else VNull)
  else ret VNull.

(** [Math.floor(Math.random() * (2000 - 1000 + 1)) + 1000], for the draw
    [u] of [Math.random()], a number in [0, 1). *)
Definition randomNumber (u : Q) : Z :=
  (Qfloor (u * inject_Z (2000 - 1000 + 1)) + 1000)%Z.

(** [currencyCode ? (exchange_rate
                     ? population * (randomNumber / exchange_rate) : null)
                  : 0] *)
Definition estimated_gdp (code rate population : value) (r : Z) : value :=
  if truthy code then
    if truthy rate
    then VNum (num_mul (to_number population)
                       (num_div (Fin (inject_Z r)) (to_number rate)))
    else VNull
  else VNum (Fin 0).


(** Lines 100-131 of controller.js: the body of the loop up to the
    statement.  Destructuring throws on a null or undefined country. *)
Definition record_of (exchangeRateData item : value) (u : Q) (now : nat)
  : result params :=
  let country := replaceUndefined item requiredKeys in
  name <- get country "name" ;;
  capital <- get country "capital" ;;
  region <- get country "region" ;;
  population <- get country "population" ;;
  currencies <- get country "currencies" ;;
  flag <- get country "flag" ;;
  let code := currencyCode currencies in
  rate <- exchange_rate code exchangeRateData ;;
  ret {| p_name := name;
         p_capital := capital;
         p_region := region;
         p_population := population;
         p_currency_code := code;
         p_exchange_rate := rate;
         p_estimated_gdp := estimated_gdp code rate population (randomNumber u);
         p_flag_url := flag;
         p_last_refreshed_at := now |}.

(** ** The world a request runs in *)

(** What [generateSummaryImage] prints on the image, line by line. *)
Record summary_image : Type := {
  line_total : nat;
  lines_top : list (nat * (string * option Q));
  line_updated : nat
}.

(** The table and the file [cache/summary.png]. *)
Record world : Type := {
  countries : Countries.table;
  summary_png : option summary_image
}.

(** What [await fetch(url)] gives: a rejection, or a response with its
    status and its body ([None] when the body is not JSON). *)
Inductive fetched : Type :=
| Rejected
| Response (status : nat) (body : option value).

(** Everything outside the process that one refresh run meets. *)
Record env : Type := {
  create_table_ok : bool;          (* CREATE TABLE IF NOT EXISTS succeeds *)
  countries_api : fetched;         (* restcountries.com *)
  rates_api : fetched;             (* open.er-api.com *)
  random : nat -> Q;               (* Math.random() in iteration i *)
  js_clock : nat -> nat;           (* new Date() in iteration i *)
  db_clock : nat -> nat;           (* CURRENT_TIMESTAMP at statement i *)
  execute_ok : nat -> bool;        (* the store takes statement i *)
  select_all_ok : bool;
  select_top5_ok : bool;
  render_clock : nat;              (* new Date() handed to the renderer *)
  render_ok : bool                 (* Jimp writes the file *)
}.

Inductive body : Type :=
| Message (s : string)
| Error (s : string)
| Rows (l : list Countries.row)
| Status (total : nat) (last_refreshed_at : option nat).

Record response : Type := { status : nat; payload : body }.

(** A handler either sends a response or lets an exception escape. *)
Inductive outcome : Type :=
| Sent (r : response)
| Threw (e : error).

Definition await_fetch (f : fetched) : result (nat * option value) :=
  match f with
  | Rejected => throw FetchError
  | Response st b => ret (st, b)
  end.

(** [response.ok] *)
Definition ok (response : nat * option value) : bool :=
  (200 <=? fst response)%nat && (fst response <=? 299)%nat.

(** [await response.json()] *)
Definition json (response : nat * option value) : result value :=
  match snd response with
  | Some v => ret v
  | None => throw SyntaxError
  end.

Definition check (b : bool) (e : error) : result unit :=
  if b then ret tt else throw e.

(** ** utils.js: [generateSummaryImage] *)
Definition generateSummaryImage (total : nat)
           (topCountries : list (string * option Q)) (timestamp : nat)
  : summary_image :=
  {| line_total := total;
     lines_top := combine (seq 1 (List.length topCountries)) topCountries;
     line_updated := timestamp |}.

(** ** controller.js: [postCountries] *)

(** [await pool.execute(sql, [name, ..., last_refreshed_at])]: the driver
    throws on an undefined parameter, the store may be down or refuse the
    values. *)
Definition execute_upsert (up : bool) (now : nat) (p : params)
           (t : Countries.table) : result Countries.table :=
  if existsb is_undefined
             [p_name p; p_capital p; p_region p; p_population p;
              p_currency_code p; p_exchange_rate p; p_estimated_gdp p;
              p_flag_url p]
  then throw TypeError
  else
    _ <- check up StoreError ;;
    match Countries.bind_params p with
    | Some v => ret (Countries.upsert now v t)
    | None => throw StoreError
    end.

(** The record of index [i]: [countriesData[i]] run through lines
    100-131. *)
Definition item_record (e : env) (exchangeRateData countriesData : value)
           (i : nat) : result params :=
  item <- get countriesData (string_of_nat i) ;;
  record_of exchangeRateData item (random e i) (js_clock e i).

(** One turn of the loop, for index [i]. *)
Definition iteration (e : env) (exchangeRateData countriesData : value)
           (i : nat) (t : Countries.table) : result Countries.table :=
  p <- item_record e exchangeRateData countriesData i ;;
  execute_upsert (execute_ok e i) (db_clock e i) p t.

(** [n] turns from index [i] on; the first exception ends the loop and
    leaves the table as the earlier turns made it. *)
Fixpoint process_each (e : env) (exchangeRateData countriesData : value)
         (n i : nat) (t : Countries.table)
  : Countries.table * option error :=
  match n with
  | O => (t, None)
  | S n' =>
    match iteration e exchangeRateData countriesData i t with
    | inl err => (t, Some err)
    | inr t' => process_each e exchangeRateData countriesData n' (S i) t'
    end
  end.

(** How many indices [i] pass the test [i < length].  Under an infinite
    length (an object whose [length] property converts to Infinity) the
    loop can only end by an exception: it meets an index that is no key
    of the object among the first [S (length props)], and destructuring
    undefined throws there; see [endless_loop_bound]. *)
Definition turns (len : number) (countriesData : value) : nat :=
  match len with
  | Fin q => Z.to_nat (Qceiling q)
  | PInf =>
    match countriesData with
    | VObj props => S (List.length props)
    | _ => 0
    end
  | _ => 0
  end.

(** Lines 84-96: create the table, fetch both sources, parse. *)
Definition fetch_all (e : env) : result (value * value) :=
  _ <- check (create_table_ok e) StoreError ;;
  response <- await_fetch (countries_api e) ;;
  exchangeInUSD <- await_fetch (rates_api e) ;;
  countriesData <- json response ;;
  rates_doc <- json exchangeInUSD ;;
  exchangeRateData <- get rates_doc "rates" ;;
  ret (countriesData, exchangeRateData).

Definition failed_500 : outcome :=
  Sent {| status := 500; payload := Error "Failed to fetch country data" |}.

Definition with_table (w : world) (t : Countries.table) : world :=
  {| countries := t; summary_png := summary_png w |}.

(** Lines 165-182: read back, render, answer. *)
Definition finish (e : env) (w : world) (t : Countries.table)
  : outcome * world :=
  match (_ <- check (select_all_ok e) StoreError ;;
         _ <- check (select_top5_ok e) StoreError ;;
         check (render_ok e) RenderError) with
  | inl _ => (failed_500, with_table w t)
  | inr _ =>
    (Sent {| status := 201; payload := Message "data refreshed" |},
     {| countries := t;
        summary_png :=
          Some (generateSummaryImage (List.length t) (Countries.select_top5 t)
                                     (render_clock e)) |})
  end.

(** Lines 99-163 followed by [finish]; every exception lands in the one
    [catch] of the handler. *)
Definition process_and_finish (e : env) (w : world)
           (countriesData exchangeRateData : value) : outcome * world :=
  match get countriesData "length" with
  | inl _ => (failed_500, w)
  | inr len =>
    match process_each e exchangeRateData countriesData
                       (turns (to_number len) countriesData) 0
                       (countries w) with
    | (t, Some _) => (failed_500, with_table w t)
    | (t, None) => finish e w t
    end
  end.

Definition postCountries (e : env) (w : world) : outcome * world :=
  match fetch_all e with
  | inl _ => (failed_500, w)
  | inr (countriesData, exchangeRateData) =>
    process_and_finish e w countriesData exchangeRateData
  end.

(** ** controller.js: the read handlers *)

Record query : Type := {
  q_region : option string;
  q_currency : option string;
  q_sort : option string
}.

(** [if (x)] on a query parameter: present and not the empty string. *)
Definition given (x : option string) : bool :=
  match x with
  | Some s => negb (s =? EmptyString)
  | None => false
  end.

Definition param (x : option string) : string :=
  match x with Some s => s | None => EmptyString end.

(** The statement [getCountries] builds, as the rows it selects. *)
Definition countries_query (q : query) (t : Countries.table)
  : list Countries.row :=
  let conditions :=
      (if given (q_region q)
       then [fun r => Countries.text_is (param (q_region q))
                                        (Countries.region r)]
       else [])
      ++
      (if given (q_currency q)
       then [fun r => Countries.text_is (param (q_currency q))
                                        (Countries.currency_code r)]
       else []) in
  let rows :=
      if (0 <? List.length conditions)%nat
      then Countries.select_where conditions t else t in
  if param (q_sort q) =? "gdp_desc"
  then Countries.order_by_estimated_gdp_desc rows else rows.

Definition getCountries (store_up : bool) (q : query) (w : world) : outcome :=
  if store_up
  then Sent {| status := 200;
               payload := Rows (countries_query q (countries w)) |}
  else Sent {| status := 500; payload := Error "Database query failed" |}.

(** [getStatus] has no [try]: what goes wrong escapes the handler. *)
Definition getStatus (store_up : bool) (w : world) : outcome :=
  if store_up then
    let row := countries w in
    match nth_error row 0 with
    | None => Threw TypeError
    | Some first =>
      Sent {| status := 200;
              payload := Status (List.length row)
                                (Some (Countries.last_refreshed_at first)) |}
    end
  else Threw StoreError.

Definition getCountry (store_up : bool) (name : string) (w : world)
  : outcome :=
  if store_up
  then Sent {| status := 200;
               payload := Rows (Countries.select_by_name name (countries w)) |}
  else Sent {| status := 500; payload := Error "Database query failed" |}.

Definition deleteCountry (store_up : bool) (name : string) (w : world)
  : outcome * world :=
  if store_up
  then (Sent {| status := 200; payload := Message "Country deleted" |},
        with_table w (Countries.delete_by_name name (countries w)))
  else (Sent {| status := 500; payload := Error "Database query failed" |}, w).

(** ** The revision of [postCountries] kept in src/database.js

    It differs from the handler above in lines 116-160 only: each fetch
    is checked with [response.ok] and answered with 502 on its own. *)

Definition bad_gateway (msg : string) : outcome :=
  Sent {| status := 502; payload := Error msg |}.

(** [response = await fetch(url); if (!response.ok) throw new Error(...)] *)
Definition fetch_checked (f : fetched) : result (nat * option value) :=
  response <- await_fetch f ;;
  _ <- check (ok response) FetchError ;;
  ret response.

Definition postCountries_revised (e : env) (w : world) : outcome * world :=
  match check (create_table_ok e) StoreError with
  | inl _ => (failed_500, w)
  | inr _ =>
  match fetch_checked (countries_api e) with
  | inl _ =>
    (bad_gateway "Failed to fetch countries data from external API", w)
  | inr response =>
  match fetch_checked (rates_api e) with
  | inl _ =>
    (bad_gateway "Failed to fetch exchange rates from external API", w)
  | inr exchangeInUSD =>
  match (countriesData <- json response ;;
         rates_doc <- json exchangeInUSD ;;
         exchangeRateData <- get rates_doc "rates" ;;
         ret (countriesData, exchangeRateData)) with
  | inl _ => (bad_gateway "Invalid response from external APIs", w)
  | inr (countriesData, exchangeRateData) =>
    process_and_finish e w countriesData exchangeRateData
  end end end end.

(** The table after a series of refresh runs, each in its own
    environment. *)
Definition refreshes (runs : list env) (w : world) : world :=
  fold_left (fun w e => snd (postCountries e w)) runs w.

End Program.

(** ** controller.js: [getImg] *)

(** What a handler that may stream the image hands to the client. *)
Inductive served : Type :=
| Json (r : response)
| Png (img : summary_image).

(** [fs.existsSync(imagePath)] decides between the 404 and the stream. *)
Definition getImg (w : world) : served :=
  match summary_png w with
  | None =>
    Json {| status := 404; payload := Error "Summary image not found" |}
  | Some img => Png img
  end.

(** ** The read and delete handlers of the revision in src/database.js *)

(** The bodies the revised handlers send.  [getStatus] names the count
    [total] on the empty table and [total_countries] otherwise. *)
Inductive body_revised : Type :=
| RError (s : string)
| RMessage (s : string)
| RRows (l : list Countries.row)
| RRow (r : Countries.row)
| RTotal (total : nat) (last_refreshed_at : option nat)
| RTotalCountries (total_countries : nat) (last_refreshed_at : option nat).

Record response_revised : Type := {
  r_status : nat;
  r_payload : body_revised
}.

(** [ORDER BY k1, k2] as an insertion sort on "may stand before". *)
Fixpoint insert_by (before : Countries.row -> Countries.row -> bool)
         (r : Countries.row) (sorted : list Countries.row)
  : list Countries.row :=
  match sorted with
  | [] => [r]
  | x :: rest =>
    if before r x then r :: sorted else x :: insert_by before r rest
  end.

Definition sort_by (before : Countries.row -> Countries.row -> bool)
           (t : list Countries.row) : list Countries.row :=
  fold_right (insert_by before) [] t.

(** [estimated_gdp IS NULL]: 0 or 1. *)
Definition is_null_key (g : option Q) : nat :=
  match g with
  | None => 1
  | Some _ => 0
  end.

(** [ORDER BY estimated_gdp IS NULL ASC, estimated_gdp DESC]: the first
    key ascending, ties broken by the second key descending. *)
Definition null_flag_then_gdp (a b : Countries.row) : bool :=
  (is_null_key (Countries.estimated_gdp a)
   <? is_null_key (Countries.estimated_gdp b))%nat
  || ((is_null_key (Countries.estimated_gdp a)
       =? is_null_key (Countries.estimated_gdp b))%nat
      && Countries.gdp_ge (Countries.estimated_gdp a)
                          (Countries.estimated_gdp b)).

(** The statement the revised [getCountries] builds. *)
Definition countries_query_revised (q : query) (t : Countries.table)
  : list Countries.row :=
  let conditions :=
      (if given (q_region q)
       then [fun r => Countries.text_is (param (q_region q))
                                        (Countries.region r)]
       else [])
      ++
      (if given (q_currency q)
       then [fun r => Countries.text_is (param (q_currency q))
                                        (Countries.currency_code r)]
       else []) in
  let rows :=
      if (0 <? List.length conditions)%nat
      then Countries.select_where conditions t else t in
  if param (q_sort q) =? "gdp_desc"
  then sort_by null_flag_then_gdp rows else rows.

Definition database_failed : response_revised :=
  {| r_status := 500; r_payload := RError "Database query failed" |}.

(** [if (sort && sort !== "gdp_desc")] comes before the query. *)
Definition getCountries_revised (store_up : bool) (q : query) (w : world)
  : response_revised :=
  if given (q_sort q) && negb (param (q_sort q) =? "gdp_desc")
  then {| r_status := 400;
          r_payload :=
            RError "Invalid sort parameter. Use 'gdp_desc' or omit." |}
  else if store_up
  then {| r_status := 200;
          r_payload := RRows (countries_query_revised q (countries w)) |}
  else database_failed.

Definition getStatus_revised (store_up : bool) (w : world)
  : response_revised :=
  if store_up then
    let row := countries w in
    if (List.length row =? 0)%nat
    then {| r_status := 200; r_payload := RTotal 0 None |}
    else
      match nth_error row 0 with
      | Some first =>
        {| r_status := 200;
           r_payload :=
             RTotalCountries (List.length row)
                             (Some (Countries.last_refreshed_at first)) |}
      | None => database_failed
      end
  else database_failed.

Definition getCountry_revised (store_up : bool) (name : string) (w : world)
  : response_revised :=
  if name =? EmptyString
  then {| r_status := 400; r_payload := RError "Country name is required" |}
  else if store_up then
    let row := Countries.select_by_name name (countries w) in
    match nth_error row 0 with
    | None => {| r_status := 404; r_payload := RError "Country not found" |}
    | Some first => {| r_status := 200; r_payload := RRow first |}
    end
  else database_failed.

(** [result.affectedRows] is the number of rows the DELETE removed. *)
Definition deleteCountry_revised (store_up : bool) (name : string)
           (w : world) : response_revised * world :=
  if name =? EmptyString
  then ({| r_status := 400; r_payload := RError "Country name is required" |},
        w)
  else if store_up then
    let affectedRows :=
        List.length (Countries.select_by_name name (countries w)) in
    let w' := with_table w (Countries.delete_by_name name (countries w)) in
    if (affectedRows =? 0)%nat
    then ({| r_status := 404; r_payload := RError "Country not found" |}, w')
    else ({| r_status := 200; r_payload := RMessage "Country deleted" |}, w')
  else (database_failed, w).

(** ** Sample data *)

(** A runtime for documents whose numbers are JSON numbers and whose
    currency codes are strings; its two conversions are not reached on
    the samples below. *)
Definition json_runtime : Runtime :=
  {| to_number_other := fun _ => NaN;
     to_key_other := fun _ => "[object Object]" |}.

Definition num (q : Q) : value := VNum (Fin q).

Definition france : value :=
  VObj [("name", VStr "France"); ("capital", VStr "Paris");
        ("region", VStr "Europe"); ("population", num 1000);
        ("currencies",
         VArr [VObj [("code", VStr "EUR"); ("name", VStr "Euro")]] []);
        ("flag", VStr "https://flagcdn.com/fr.svg")].

(** A record without a name: the store refuses it. *)
Definition nameless : value :=
  VObj [("capital", VStr "Nowhere"); ("population", num 5)].

(** A record without a currency. *)
Definition antarctica : value :=
  VObj [("name", VStr "Antarctica"); ("region", VStr "Polar");
        ("population", num 1000); ("currencies", VArr [] [])].

Definition sample_rates : value :=
  VObj [("USD", num 1); ("EUR", num 10); ("XXX", num 0)].

Definition rates_document : value :=
  VObj [("result", VStr "success"); ("rates", sample_rates)].

(** An environment in which the store, the clock and the renderer work,
    for the two given answers of the sources.  [Math.random()] yields
    one half, so each [randomNumber] is 1500. *)
Definition healthy (directory rates : fetched) : env :=
  {| create_table_ok := true;
     countries_api := directory;
     rates_api := rates;
     random := fun _ => 1 # 2;
     js_clock := fun i => (100 + i)%nat;
     db_clock := fun i => (100 + i)%nat;
     execute_ok := fun _ => true;
     select_all_ok := true;
     select_top5_ok := true;
     render_clock := 200%nat;
     render_ok := true |}.

Definition rates_200 : fetched := Response 200 (Some rates_document).

Definition empty_world : world := {| countries := []; summary_png := None |}.

(** The directory answers 404 with a JSON error document. *)
Definition not_found : fetched :=
  Response 404 (Some (VObj [("status", num 404);
                            ("message", VStr "Not Found")])).

(** The directory answers 500, with a list in the body all the same. *)
Definition error_with_list : fetched :=
  Response 500 (Some (VArr [france] [])).

(** France, then the nameless record, then Antarctica. *)
Definition three_countries : value :=
  VArr [france; nameless; antarctica] [].

Definition three_records : fetched := Response 200 (Some three_countries).

Definition three_records_env : env := healthy three_records rates_200.

(** The row the table holds for France before a refresh, and the values
    a later run binds for it. *)
Definition france_row : Countries.row :=
  {| Countries.name := "France";
     Countries.capital := Some "Lutetia";
     Countries.region := None;
     Countries.population := Some 900;
     Countries.currency_code := Some "FRF";
     Countries.exchange_rate := None;
     Countries.estimated_gdp := None;
     Countries.flag_url := None;
     Countries.last_refreshed_at := 10%nat;
     Countries.created_at := 3%nat |}.

Definition france_params : params :=
  {| p_name := VStr "France";
     p_capital := VStr "Paris";
     p_region := VStr "Europe";
     p_population := num 1000;
     p_currency_code := VStr "EUR";
     p_exchange_rate := num 10;
     p_estimated_gdp := num 150000;
     p_flag_url := VStr "https://flagcdn.com/fr.svg";
     p_last_refreshed_at := 100%nat |}.

(** The row the first record of [three_records] leaves in an empty table
    under [healthy]: 1000 * (1500 / 10). *)
Definition france_refreshed : Countries.row :=
  {| Countries.name := "France";
     Countries.capital := Some "Paris";
     Countries.region := Some "Europe";
     Countries.population := Some 1000;
     Countries.currency_code := Some "EUR";
     Countries.exchange_rate := Some 10;
     Countries.estimated_gdp := Some (1500000 # 10);
     Countries.flag_url := Some "https://flagcdn.com/fr.svg";
     Countries.last_refreshed_at := 100%nat;
     Countries.created_at := 100%nat |}.

(** What line 109 reads from the nameless record, at index 1. *)
Definition nameless_params : params :=
  {| p_name := VNull;
     p_capital := VStr "Nowhere";
     p_region := VNull;
     p_population := num 5;
     p_currency_code := VNull;
     p_exchange_rate := VNull;
     p_estimated_gdp := num 0;
     p_flag_url := VNull;
     p_last_refreshed_at := 101%nat |}.

(** The row [france_params] inserts into an empty table at time 100. *)
Definition france_refreshed_150000 : Countries.row :=
  {| Countries.name := "France";
     Countries.capital := Some "Paris";
     Countries.region := Some "Europe";
     Countries.population := Some 1000;
     Countries.currency_code := Some "EUR";
     Countries.exchange_rate := Some 10;
     Countries.estimated_gdp := Some 150000;
     Countries.flag_url := Some "https://flagcdn.com/fr.svg";
     Countries.last_refreshed_at := 100%nat;
     Countries.created_at := 100%nat |}.

(** Two sets of bound values for France. *)
Definition lyon_values : Countries.new_values :=
  {| Countries.v_name := "France";
     Countries.v_capital := Some "Lyon";
     Countries.v_region := None;
     Countries.v_population := None;
     Countries.v_currency_code := None;
     Countries.v_exchange_rate := None;
     Countries.v_estimated_gdp := None;
     Countries.v_flag_url := None;
     Countries.v_last_refreshed_at := 20%nat |}.

Definition paris_values : Countries.new_values :=
  {| Countries.v_name := "France";
     Countries.v_capital := Some "Paris";
     Countries.v_region := Some "Europe";
     Countries.v_population := Some 1000;
     Countries.v_currency_code := Some "EUR";
     Countries.v_exchange_rate := Some 10;
     Countries.v_estimated_gdp := Some 150000;
     Countries.v_flag_url := Some "https://flagcdn.com/fr.svg";
     Countries.v_last_refreshed_at := 100%nat |}.

(** France and Antarctica, both well-formed. *)
Definition two_countries : value := VArr [france; antarctica] [].

Definition two_records_env : env :=
  healthy (Response 200 (Some two_countries)) rates_200.

(** A directory that lists Antarctica only, and a table that holds
    France only. *)
Definition antarctica_only_env : env :=
  healthy (Response 200 (Some (VArr [antarctica] []))) rates_200.

Definition france_world : world :=
  {| countries := [france_row]; summary_png := None |}.

(** The directory is down. *)
Definition directory_down_env : env := healthy Rejected rates_200.

(** * Properties *)

(** ** The normaliser *)

Lemma replaceUndefined_obj props ks :
  replaceUndefined (VObj props) ks =
  ensure_keys ks
    (VObj (map (fun kv => (fst kv,
                           visit_key (fun o => replaceUndefined o []) (snd kv)))
               props)).
Proof. reflexivity. Qed.

Lemma replaceUndefined_arr items props ks :
  replaceUndefined (VArr items props) ks =
  ensure_keys ks
    (VArr (map (visit_key (fun o => replaceUndefined o [])) items)
          (map (fun kv => (fst kv,
                           visit_key (fun o => replaceUndefined o []) (snd kv)))
               props)).
Proof. reflexivity. Qed.

Lemma is_object_cases v :
  is_object v = true ->
  (exists props, v = VObj props) \/ (exists items props, v = VArr items props).
Proof.
  destruct v as [| |b|n|s|items props|props]; intro H; eauto;
    exfalso; revert H; unfold is_object; cbn; try discriminate.
  - destruct b; discriminate.
  - rewrite andb_false_r. discriminate.
  - rewrite andb_false_r. discriminate.
Qed.










Lemma assoc_set_same k x props : assoc k (assoc_set k x props) = Some x.
Proof.
  induction props as [|[k' v] rest IH]; cbn.
  - now rewrite String.eqb_refl.
  - destruct (k' =? k) eqn:E; cbn; rewrite E; auto.
Qed.

Lemma assoc_set_other k k' x props :
  k' <> k -> assoc k (assoc_set k' x props) = assoc k props.
Proof.
  intro Hne. induction props as [|[k0 v] rest IH]; cbn.
  - apply String.eqb_neq in Hne. now rewrite Hne.
  - destruct (k0 =? k') eqn:E; cbn.
    + apply String.eqb_eq in E. subst k0.
      apply String.eqb_neq in Hne. now rewrite Hne.
    + now rewrite IH.
Qed.

Lemma own_index_in_range k len i :
  own_index k len = Some i -> (i < len)%nat.
Proof.
  unfold own_index. intro H. apply find_some in H as [H _].
  apply in_seq in H. lia.
Qed.

Lemma is_object_set_property o k x :
  is_object o = true -> is_object (set_property o k x) = true.
Proof.
  intro H.
  apply is_object_cases in H as [[props ->]|[items [props ->]]]; cbn; auto.
  destruct (own_index k (List.length items)); reflexivity.
Qed.

Lemma set_property_has o k :
  is_object o = true -> has_property o k = false ->
  has_property (set_property o k VNull) k = true.
Proof.
  unfold has_property. intros Ho Hk.
  apply is_object_cases in Ho as [[props ->]|[items [props ->]]]; cbn in *.
  - now rewrite assoc_set_same.
  - destruct (own_index k (List.length items)) as [i|] eqn:E.
    + apply own_index_in_range in E.
      destruct (nth_error items i) eqn:N; [discriminate|].
      apply nth_error_None in N. lia.
    + cbn. rewrite E. destruct (k =? "length"); [discriminate|].
      now rewrite assoc_set_same.
Qed.

Lemma set_property_keeps o k k' :
  is_object o = true -> has_property o k' = false ->
  has_property o k = true ->
  has_property (set_property o k' VNull) k = true.
Proof.
  unfold has_property. intros Ho Hk' Hk.
  assert (Hne : k' <> k).
  { intros ->. rewrite Hk' in Hk. discriminate. }
  apply is_object_cases in Ho as [[props ->]|[items [props ->]]]; cbn in *.
  - now rewrite assoc_set_other.
  - destruct (own_index k' (List.length items)) as [i|] eqn:E.
    + apply own_index_in_range in E.
      destruct (nth_error items i) eqn:N; [discriminate|].
      apply nth_error_None in N. lia.
    + cbn. destruct (own_index k (List.length items)); auto.
      destruct (k =? "length"); auto.
      now rewrite assoc_set_other.
Qed.

Lemma is_object_ensure_keys ks : forall o,
  is_object o = true -> is_object (ensure_keys ks o) = true.
Proof.
  unfold ensure_keys. induction ks as [|k ks IH]; intros o H; cbn; auto.
  apply IH. destruct (negb (has_property o k)); auto.
  now apply is_object_set_property.
Qed.

Lemma ensure_keys_has ks : forall o k,
  is_object o = true ->
  In k ks \/ has_property o k = true ->
  has_property (ensure_keys ks o) k = true.
Proof.
  unfold ensure_keys.
  induction ks as [|k0 ks IH]; intros o k Ho H; cbn.
  - destruct H as [[]|H]; exact H.
  - apply IH.
    + destruct (negb (has_property o k0)); auto.
      now apply is_object_set_property.
    + destruct H as [[->|H]|H]; auto; right.
      * destruct (has_property o k) eqn:E; cbn; auto.
        now apply set_property_has.
      * destruct (has_property o k0) eqn:E; cbn; auto.
        now apply set_property_keeps.
Qed.

Lemma is_object_replaceUndefined obj ks :
  is_object obj = true -> is_object (replaceUndefined obj ks) = true.
Proof.
  intro H.
  apply is_object_cases in H as [[props ->]|[items [props ->]]].
  - rewrite replaceUndefined_obj. now apply is_object_ensure_keys.
  - rewrite replaceUndefined_arr. now apply is_object_ensure_keys.
Qed.



(** C10.  An input that is not a non-null object (undefined, null, a
    boolean, a number, a string) comes back unchanged, whatever the
    required keys: the result is the input itself and still not an object,
    its own properties are those of the input, and unless the input is a
    string it owns no property at all, so none of the required keys. *)
Theorem replaceUndefined_leaves_primitives :
  forall (v : value) (keys : list string),
    is_object v = false ->
    replaceUndefined v keys = v
    /\ is_object (replaceUndefined v keys) = false
    /\ (forall key, get_own (replaceUndefined v keys) key = get_own v key)
    /\ ((forall s, v <> VStr s) ->
        forall key, get_own (replaceUndefined v keys) key = None).
Proof.
  intros v ks H.
  assert (E : replaceUndefined v ks = v).
  { destruct v; try reflexivity; discriminate. }
  rewrite E. repeat split; auto.
  intros Hs key. destruct v; try reflexivity; try discriminate.
  now destruct (Hs s).
Qed.

(** ** The estimator *)

Section Estimator.
Context {rt : Runtime}.




End Estimator.

(** ** The store *)

Module CountriesFacts.
Import Countries.

Lemma upsert_names now v t n :
  In n (map name (upsert now v t)) <-> n = v_name v \/ In n (map name t).
Proof.
  induction t as [|r rest IH]; cbn.
  - intuition.
  - destruct (name r =? v_name v) eqn:E; cbn.
    + apply String.eqb_eq in E. intuition congruence.
    + rewrite IH. intuition.
Qed.

Lemma upsert_unique now v t :
  unique_names t -> unique_names (upsert now v t).
Proof.
  unfold unique_names. induction t as [|r rest IH]; cbn; intro H.
  - constructor; [intros []|constructor].
  - inversion H as [|x l Hnotin Hrest]; subst.
    destruct (name r =? v_name v) eqn:E; cbn.
    + now constructor.
    + constructor; auto.
      rewrite upsert_names. intros [Hn|Hn]; auto.
      apply String.eqb_neq in E. congruence.
Qed.

Lemma upsert_length_conflict now v t :
  In (v_name v) (map name t) ->
  List.length (upsert now v t) = List.length t.
Proof.
  induction t as [|r rest IH]; cbn; intro H; [contradiction|].
  destruct (name r =? v_name v) eqn:E; cbn; auto.
  f_equal. apply IH. destruct H as [H|H]; auto.
  apply String.eqb_neq in E. congruence.
Qed.

Lemma upsert_find_conflict now v t old :
  find (fun r => name r =? v_name v) t = Some old ->
  find (fun r => name r =? v_name v) (upsert now v t) = Some (updated old v).
Proof.
  induction t as [|r rest IH]; cbn; intro H; [discriminate|].
  destruct (name r =? v_name v) eqn:E; cbn.
  - injection H as <-. cbn. now rewrite E.
  - rewrite E. auto.
Qed.

Lemma find_name_in n t r :
  find (fun r => name r =? n) t = Some r -> In n (map name t).
Proof.
  intro H. apply find_some in H as [Hin Hn].
  apply String.eqb_eq in Hn. subst n. now apply in_map.
Qed.

Lemma select_by_name_absent n t :
  ~ In n (map name t) -> select_by_name n t = [].
Proof.
  unfold select_by_name. induction t as [|r rest IH]; cbn; intro H; auto.
  destruct (name r =? n) eqn:E.
  - apply String.eqb_eq in E. tauto.
  - apply IH. tauto.
Qed.

Lemma select_by_name_unique n t :
  unique_names t -> (List.length (select_by_name n t) <= 1)%nat.
Proof.
  unfold unique_names, select_by_name.
  induction t as [|r rest IH]; cbn; intro H; [lia|].
  inversion H as [|x l Hnotin Hrest]; subst.
  destruct (name r =? n) eqn:E; cbn.
  - apply String.eqb_eq in E. subst n.
    fold (select_by_name (name r) rest).
    rewrite select_by_name_absent; auto.
  - now apply IH.
Qed.

Lemma select_by_name_present n t :
  In n (map name t) -> (1 <= List.length (select_by_name n t))%nat.
Proof.
  unfold select_by_name. induction t as [|r rest IH]; cbn; intro H.
  - contradiction.
  - destruct (name r =? n) eqn:E; cbn; [lia|].
    apply IH. destruct H as [H|H]; auto.
    apply String.eqb_neq in E. congruence.
Qed.

Lemma upserts_unique l : forall t,
  unique_names t -> unique_names (upserts l t).
Proof.
  unfold upserts. induction l as [|nv l IH]; intros t H; cbn; auto.
  apply IH. now apply upsert_unique.
Qed.

Lemma upserts_keep_name n l : forall t,
  In n (map name t) -> In n (map name (upserts l t)).
Proof.
  unfold upserts. induction l as [|nv l IH]; intros t H; cbn; auto.
  apply IH. apply upsert_names. now right.
Qed.

Lemma upserts_write_name n l : forall t,
  Exists (fun nv => v_name (snd nv) = n) l ->
  In n (map name (upserts l t)).
Proof.
  induction l as [|nv l IH]; intros t H; inversion H; subst.
  - apply (upserts_keep_name _ l). apply upsert_names. now left.
  - now apply IH.
Qed.

End CountriesFacts.

(** ** The refresh run *)

Section Refresh.
Context {rt : Runtime}.

Lemma execute_upsert_inv up now p t t' :
  execute_upsert up now p t = inr t' ->
  exists v, Countries.bind_params p = Some v
            /\ t' = Countries.upsert now v t.
Proof.
  unfold execute_upsert.
  destruct (existsb is_undefined _); [discriminate|].
  destruct up; cbn; [|discriminate].
  destruct (Countries.bind_params p) as [v|]; [|discriminate].
  intro H. injection H as <-. eauto.
Qed.

Lemma iteration_inv e ex data i t t' :
  iteration e ex data i t = inr t' ->
  exists p v, item_record e ex data i = inr p
              /\ Countries.bind_params p = Some v
              /\ t' = Countries.upsert (db_clock e i) v t.
Proof.
  unfold iteration, bind.
  destruct (item_record e ex data i) as [err|p]; [discriminate|].
  intro H. apply execute_upsert_inv in H as [v [Hb Ht]]. eauto.
Qed.

(** A property of the table that every upsert keeps is kept by the loop,
    however it ends. *)
Lemma process_each_keeps (I : Countries.table -> Prop) :
  (forall now v t, I t -> I (Countries.upsert now v t)) ->
  forall e ex data n i t,
    I t -> I (fst (process_each e ex data n i t)).
Proof.
  intros Hstep e ex data n.
  induction n as [|n IH]; intros i t Ht; cbn; auto.
  destruct (iteration e ex data i t) as [err|t'] eqn:E; cbn; auto.
  apply iteration_inv in E as [p [v [_ [_ ->]]]].
  apply IH. now apply Hstep.
Qed.

Lemma finish_table e w t : countries (snd (finish e w t)) = t.
Proof.
  unfold finish.
  destruct (bind _ _); reflexivity.
Qed.

Lemma process_and_finish_keeps (I : Countries.table -> Prop) :
  (forall now v t, I t -> I (Countries.upsert now v t)) ->
  forall e w data ex,
    I (countries w) ->
    I (countries (snd (process_and_finish e w data ex))).
Proof.
  intros Hstep e w data ex Hw. unfold process_and_finish.
  destruct (get data "length") as [err|len]; cbn; auto.
  pose proof (process_each_keeps I Hstep e ex data
                (turns (to_number len) data) 0 (countries w) Hw) as H.
  destruct (process_each e ex data _ 0 (countries w)) as [t [err|]];
    cbn in *; auto.
  now rewrite finish_table.
Qed.

Lemma postCountries_keeps (I : Countries.table -> Prop) :
  (forall now v t, I t -> I (Countries.upsert now v t)) ->
  forall e w,
    I (countries w) -> I (countries (snd (postCountries e w))).
Proof.
  intros Hstep e w Hw. unfold postCountries.
  destruct (fetch_all e) as [err|[data ex]]; cbn; auto.
  now apply process_and_finish_keeps.
Qed.

Lemma refreshes_keep (I : Countries.table -> Prop) :
  (forall now v t, I t -> I (Countries.upsert now v t)) ->
  forall runs w,
    I (countries w) -> I (countries (refreshes runs w)).
Proof.
  intros Hstep runs. unfold refreshes.
  induction runs as [|e runs IH]; intros w Hw; cbn; auto.
  apply IH. now apply postCountries_keeps.
Qed.

(** C4.  When the statement of [postCountries] succeeds on a name that a
    row of the table already carries, that row ends with the eight listed
    columns holding the newly bound values, with its [name] and its
    [created_at] as before, and the table has as many rows as before. *)
Theorem upsert_conflict_overwrites :
  forall (up : bool) (now : nat) (p : params) (n : string)
         (t t' : Countries.table) (old : Countries.row),
    execute_upsert up now p t = inr t' ->
    p_name p = VStr n ->
    find (fun r => Countries.name r =? n) t = Some old ->
    exists (v : Countries.new_values) (new : Countries.row),
      Countries.bind_params p = Some v
      /\ find (fun r => Countries.name r =? n) t' = Some new
      /\ Countries.name new = Countries.name old
      /\ Countries.capital new = Countries.v_capital v
      /\ Countries.region new = Countries.v_region v
      /\ Countries.population new = Countries.v_population v
      /\ Countries.currency_code new = Countries.v_currency_code v
      /\ Countries.exchange_rate new = Countries.v_exchange_rate v
      /\ Countries.estimated_gdp new = Countries.v_estimated_gdp v
      /\ Countries.flag_url new = Countries.v_flag_url v
      /\ Countries.last_refreshed_at new = p_last_refreshed_at p
      /\ Countries.created_at new = Countries.created_at old
      /\ List.length t' = List.length t.
Proof.
  intros up now p n t t' old Hex Hname Hfind.
  apply execute_upsert_inv in Hex as [v [Hb ->]].
  assert (Hn : Countries.v_name v = n).
  { unfold Countries.bind_params in Hb. rewrite Hname in Hb. cbn in Hb.
    repeat match type of Hb with
           | match ?x with _ => _ end = _ => destruct x; try discriminate
           end.
    injection Hb as <-. reflexivity. }
  assert (Hlast : Countries.v_last_refreshed_at v = p_last_refreshed_at p).
  { unfold Countries.bind_params in Hb.
    repeat match type of Hb with
           | match ?x with _ => _ end = _ => destruct x; try discriminate
           end.
    injection Hb as <-. reflexivity. }
  subst n.
  exists v, (Countries.updated old v).
  split; [exact Hb|]. split.
  - now apply CountriesFacts.upsert_find_conflict.
  - rewrite <- Hlast. cbn. repeat split.
    apply CountriesFacts.upsert_length_conflict.
    eapply CountriesFacts.find_name_in; eauto.
Qed.

(** C5.  One row per name.  From a table whose names are distinct (the
    state the unique key maintains, and in particular the empty table),
    after any series of refresh runs a lookup by name finds at most one
    row and [getCountry] answers with at most one row; and after any
    further series of upserts, as many as one likes and of whatever names,
    of which at least one carries the name, exactly one row has it. *)
Theorem one_row_per_name :
  forall (runs : list env) (w : world) (n : string),
    Countries.unique_names (countries w) ->
    (List.length (Countries.select_by_name n (countries (refreshes runs w)))
     <= 1)%nat
    /\ (exists rows,
          getCountry true n (refreshes runs w)
          = Sent {| status := 200; payload := Rows rows |}
          /\ (List.length rows <= 1)%nat)
    /\ (forall l : list (Countries.time * Countries.new_values),
          Exists (fun nv => Countries.v_name (snd nv) = n) l ->
          List.length
            (Countries.select_by_name
               n (Countries.upserts l (countries (refreshes runs w))))
          = 1%nat).
Proof.
  intros runs w n Hw.
  assert (Hu : Countries.unique_names (countries (refreshes runs w))).
  { apply (refreshes_keep Countries.unique_names); auto.
    intros. now apply CountriesFacts.upsert_unique. }
  split; [now apply CountriesFacts.select_by_name_unique|].
  split.
  - eexists. split; [reflexivity|].
    now apply CountriesFacts.select_by_name_unique.
  - intros l Hl.
    set (t := countries (refreshes runs w)) in *.
    pose proof (CountriesFacts.select_by_name_unique
                  n _ (CountriesFacts.upserts_unique l t Hu)) as Hle.
    pose proof (CountriesFacts.select_by_name_present
                  n _ (CountriesFacts.upserts_write_name n l t Hl)) as Hge.
    lia.
Qed.

(** C7.  A refresh run deletes nothing: a name the table carries before
    the run is carried after it, whatever the sources delivered and
    however the run ended. *)
Theorem refresh_never_deletes :
  forall (e : env) (w : world) (n : string),
    Countries.has_name n (countries w) ->
    Countries.has_name n (countries (snd (postCountries e w))).
Proof.
  intros e w n H.
  apply (postCountries_keeps (Countries.has_name n)); auto.
  intros now v t Ht. apply CountriesFacts.upsert_names. now right.
Qed.

Lemma process_each_split e ex data k : forall m i t,
  process_each e ex data (k + m) i t =
  match process_each e ex data k i t with
  | (t', None) => process_each e ex data m (i + k) t'
  | (t', Some err) => (t', Some err)
  end.
Proof.
  induction k as [|k IH]; intros m i t; cbn.
  - now rewrite Nat.add_0_r.
  - destruct (iteration e ex data i t) as [err|t1]; auto.
    rewrite IH. now rewrite <- Nat.add_succ_comm.
Qed.

(** The loop that ran [k] turns without exception holds a row for each
    of the [k] records. *)
Lemma process_each_committed e ex data k : forall i t t',
  process_each e ex data k i t = (t', None) ->
  forall j, (i <= j < i + k)%nat ->
    exists p v, item_record e ex data j = inr p
                /\ Countries.bind_params p = Some v
                /\ Countries.has_name (Countries.v_name v) t'.
Proof.
  induction k as [|k IH]; intros i t t' H j Hj; [lia|].
  cbn in H.
  destruct (iteration e ex data i t) as [err|t1] eqn:E; [discriminate|].
  destruct (Nat.eq_dec j i) as [->|Hne].
  - apply iteration_inv in E as [p [v [Hp [Hv ->]]]].
    exists p, v. repeat split; auto.
    assert (Hk : Countries.has_name (Countries.v_name v)
                   (fst (process_each e ex data k (S i)
                           (Countries.upsert (db_clock e i) v t)))).
    { apply (process_each_keeps (Countries.has_name (Countries.v_name v))).
      - intros now v0 t0 Ht0. apply CountriesFacts.upsert_names. now right.
      - apply CountriesFacts.upsert_names. now left. }
    now rewrite H in Hk.
  - apply (IH (S i) t1 t' H). lia.
Qed.

(** Every name of the table the loop leaves was there before or is the
    name of a record one of its turns wrote. *)
Lemma process_each_origin e ex data k : forall i t n,
  Countries.has_name n (fst (process_each e ex data k i t)) ->
  Countries.has_name n t
  \/ exists j p v, (i <= j < i + k)%nat
                   /\ item_record e ex data j = inr p
                   /\ Countries.bind_params p = Some v
                   /\ Countries.v_name v = n.
Proof.
  induction k as [|k IH]; intros i t n H; cbn in H; auto.
  destruct (iteration e ex data i t) as [err|t1] eqn:E; cbn in H; auto.
  apply IH in H as [H|[j [p [v [Hj H]]]]].
  - apply iteration_inv in E as [p [v [Hp [Hv ->]]]].
    apply CountriesFacts.upsert_names in H as [->|H]; auto.
    right. exists i, p, v. repeat split; auto; lia.
  - right. exists j, p, v. split; auto. lia.
Qed.

(** *** The bound of [turns] under an infinite length *)

Lemma string_of_nat_inj a b : string_of_nat a = string_of_nat b -> a = b.
Proof.
  unfold string_of_nat. intro H.
  assert (E : Some (Nat.to_uint a) = Some (Nat.to_uint b)).
  { rewrite <- !NilEmpty.usu. now rewrite H. }
  injection E as E.
  rewrite <- (DecimalNat.Unsigned.of_to a), <- (DecimalNat.Unsigned.of_to b).
  now rewrite E.
Qed.

Lemma assoc_in_keys k props v :
  assoc k props = Some v -> In k (map fst props).
Proof.
  induction props as [|[k' x] rest IH]; cbn; [discriminate|].
  destruct (k' =? k) eqn:E; auto.
  apply String.eqb_eq in E. auto.
Qed.

(** Among the first [S (length props)] indices one is no key. *)
Lemma object_misses_an_index props :
  exists j, (j <= List.length props)%nat
            /\ assoc (string_of_nat j) props = None.
Proof.
  set (absent := fun j => match assoc (string_of_nat j) props with
                          | None => true
                          | Some _ => false
                          end).
  destruct (find absent (seq 0 (S (List.length props)))) as [j|] eqn:F.
  - apply find_some in F as [Hin Hj]. apply in_seq in Hin.
    exists j. split; [lia|].
    unfold absent in Hj. now destruct (assoc (string_of_nat j) props).
  - exfalso.
    assert (Hincl : incl (map string_of_nat (seq 0 (S (List.length props))))
                         (map fst props)).
    { intros k Hk. apply in_map_iff in Hk as [j [<- Hj]].
      pose proof (find_none _ _ F j Hj) as Hn. unfold absent in Hn.
      destruct (assoc (string_of_nat j) props) eqn:A; [|discriminate].
      eapply assoc_in_keys; eauto. }
    apply NoDup_incl_length in Hincl.
    + rewrite !length_map, length_seq in Hincl. lia.
    + apply Injective_map_NoDup; [|apply seq_NoDup].
      intros a b. apply string_of_nat_inj.
Qed.

Lemma iteration_on_missing_index e ex props j t :
  assoc (string_of_nat j) props = None ->
  iteration e ex (VObj props) j t = inl TypeError.
Proof.
  intro H. unfold iteration, item_record, get. cbn. now rewrite H.
Qed.

Lemma process_each_stuck e ex data j :
  (forall t, iteration e ex data j t = inl TypeError) ->
  forall n i t, (i <= j < i + n)%nat ->
    exists t' err, process_each e ex data n i t = (t', Some err).
Proof.
  intros Hj n. induction n as [|n IH]; intros i t Hi; [lia|]. cbn.
  destruct (iteration e ex data i t) as [err|t1] eqn:E; eauto.
  destruct (Nat.eq_dec i j) as [->|Hne].
  - rewrite Hj in E. discriminate.
  - apply IH. lia.
Qed.

(** An endless loop over an object stops within [S (length props)] turns:
    allowing it more turns changes nothing. *)
Lemma endless_loop_bound e ex props m t :
  process_each e ex (VObj props) (S (List.length props) + m) 0 t
  = process_each e ex (VObj props) (S (List.length props)) 0 t.
Proof.
  destruct (object_misses_an_index props) as [j [Hj Hnone]].
  destruct (process_each_stuck e ex (VObj props) j
              (fun t => iteration_on_missing_index e ex props j t Hnone)
              (S (List.length props)) 0 t) as [t' [err H]]; [lia|].
  now rewrite process_each_split, H.
Qed.

(** C8.  No transaction around the loop.  When the two fetches and the
    parsing have succeeded, the first [k] records have been written in
    order, and the statement for record [k] fails, the run answers with
    the failure response and leaves the table exactly as the first [k]
    statements made it: each of those records has its row, and no name is
    in the table that was not there before or written by one of them, so
    nothing of record [k] or of a later record is there. *)
Theorem failure_keeps_earlier_records :
  forall (e : env) (w : world) (countriesData exchangeRateData len : value)
         (k : nat) (t_k : Countries.table) (p_k : params) (err : error),
    fetch_all e = inr (countriesData, exchangeRateData) ->
    get countriesData "length" = inr len ->
    (k < turns (to_number len) countriesData)%nat ->
    process_each e exchangeRateData countriesData k 0 (countries w)
    = (t_k, None) ->
    item_record e exchangeRateData countriesData k = inr p_k ->
    execute_upsert (execute_ok e k) (db_clock e k) p_k t_k = inl err ->
    postCountries e w = (failed_500, with_table w t_k)
    /\ (forall j, (j < k)%nat ->
          exists p v, item_record e exchangeRateData countriesData j = inr p
                      /\ Countries.bind_params p = Some v
                      /\ Countries.has_name (Countries.v_name v) t_k)
    /\ (forall n, Countries.has_name n t_k ->
          Countries.has_name n (countries w)
          \/ exists j p v, (j < k)%nat
                /\ item_record e exchangeRateData countriesData j = inr p
                /\ Countries.bind_params p = Some v
                /\ Countries.v_name v = n).
Proof.
  intros e w data ex len k t_k p_k err Hfetch Hlen Hk Hloop Hrec Hexec.
  repeat split.
  - unfold postCountries. rewrite Hfetch.
    unfold process_and_finish. rewrite Hlen.
    replace (turns (to_number len) data)
      with (k + S (turns (to_number len) data - S k))%nat by lia.
    rewrite process_each_split, Hloop. cbn.
    unfold iteration, bind. rewrite Hrec, Hexec. reflexivity.
  - intros j Hj.
    apply (process_each_committed e ex data k 0 (countries w) t_k Hloop).
    lia.
  - intros n Hn.
    pose proof (process_each_origin e ex data k 0 (countries w) n) as H.
    rewrite Hloop in H. destruct (H Hn) as [H1|[j [p [v [Hj H2]]]]]; auto.
    right. exists j, p, v. split; auto. lia.
Qed.

End Refresh.

(** ** Ordering by estimated GDP *)

Module OrderFacts.
Import Countries.

Lemma gdp_ge_total a b : gdp_ge a b = false -> gdp_ge b a = true.
Proof.
  destruct a as [x|], b as [y|]; cbn; try discriminate; auto.
  intro H. apply Qle_bool_iff.
  destruct (Qlt_le_dec y x) as [Hlt|Hle].
  - apply Qlt_le_weak in Hlt. apply Qle_bool_iff in Hlt. congruence.
  - exact Hle.
Qed.

Lemma gdp_ge_trans a b c :
  gdp_ge a b = true -> gdp_ge b c = true -> gdp_ge a c = true.
Proof.
  destruct a as [x|], b as [y|], c as [z|]; cbn; try discriminate; auto.
  rewrite !Qle_bool_iff. intros. eapply Qle_trans; eauto.
Qed.

Lemma insert_desc_Forall (P : row -> Prop) r l :
  P r -> Forall P l -> Forall P (insert_desc r l).
Proof.
  intros Hr. induction 1 as [|x rest Hx Hrest IH]; cbn.
  - auto.
  - destruct (gdp_ge (estimated_gdp r) (estimated_gdp x)); auto.
Qed.

Lemma insert_desc_sorted r l :
  desc_sorted l -> desc_sorted (insert_desc r l).
Proof.
  unfold desc_sorted.
  induction 1 as [|x rest Hs IH Hall]; cbn.
  - constructor; constructor.
  - destruct (gdp_ge (estimated_gdp r) (estimated_gdp x)) eqn:E.
    + constructor; [now constructor|].
      constructor; auto.
      eapply Forall_impl; [|exact Hall].
      intros y Hy. eapply gdp_ge_trans; eauto.
    + constructor; auto.
      apply insert_desc_Forall; auto.
      now apply gdp_ge_total.
Qed.

Lemma order_by_sorted t : desc_sorted (order_by_estimated_gdp_desc t).
Proof.
  unfold order_by_estimated_gdp_desc.
  induction t as [|r rest IH]; cbn.
  - constructor.
  - now apply insert_desc_sorted.
Qed.

Lemma in_firstn {A : Type} (y : A) n : forall l,
  In y (firstn n l) -> In y l.
Proof.
  induction n as [|n IH]; intros [|x r]; cbn; intro H;
    try contradiction.
  destruct H as [H|H]; auto.
Qed.





End OrderFacts.


(** C9.  [getStatus] reads the first row without a test.  With the store
    answering, a table with a first row gives the number of rows and that
    row's [last_refreshed_at]; the empty table makes the handler throw
    (reading a property of undefined) and send nothing; and it throws so
    exactly when the table is empty. *)
Theorem getStatus_first_row :
  forall w : world,
    getStatus true w
    = match countries w with
      | [] => Threw TypeError
      | first :: _ =>
        Sent {| status := 200;
                payload := Status (List.length (countries w))
                                  (Some (Countries.last_refreshed_at first)) |}
      end
    /\ (getStatus true w = Threw TypeError <-> countries w = []).
Proof.
  intro w. unfold getStatus.
  destruct (countries w) as [|first rest]; cbn.
  - split; [reflexivity|]. split; auto.
  - split; [reflexivity|]. split; discriminate.
Qed.

(** ** Failing fetches *)

Section Fetch.
Context {rt : Runtime}.

(** A fetch that is rejected ends the run of [postCountries] before the
    loop: the one failure response, and the world as it was. *)
Lemma postCountries_rejected_fetch (e : env) (w : world) :
  countries_api e = Rejected \/ rates_api e = Rejected ->
  postCountries e w = (failed_500, w).
Proof.
  intro H. unfold postCountries, fetch_all.
  destruct (create_table_ok e); cbn; auto.
  destruct H as [H|H]; rewrite H; cbn; auto.
  destruct (countries_api e); reflexivity.
Qed.

(** The revision answers 502 and writes nothing when the directory fetch
    is rejected or its response is not [ok]. *)
Lemma postCountries_revised_directory_failure (e : env) (w : world) :
  create_table_ok e = true ->
  countries_api e = Rejected
  \/ (exists st b, countries_api e = Response st b /\ ok (st, b) = false) ->
  postCountries_revised e w
  = (bad_gateway "Failed to fetch countries data from external API", w).
Proof.
  intros Hc H. unfold postCountries_revised, fetch_checked.
  rewrite Hc. cbn.
  destruct H as [H|[st [b [H Hok]]]]; rewrite H; cbn; auto.
  now rewrite Hok.
Qed.

End Fetch.

(** C3, on the handler of src/controller.js.  A rejected fetch does end
    the run with the failure response and no write.  But the status of
    the directory response is never looked at: a 404 whose body is a JSON
    error document runs the loop zero times and is answered with 201
    "data refreshed"; a 500 whose body is a list has its records written
    and is answered with 201 as well.  The revision in src/database.js
    answers both with 502 and leaves the table alone. *)
Theorem postCountries_ignores_status :
  (forall w : world,
      postCountries (rt := json_runtime) (healthy Rejected rates_200) w
      = (failed_500, w))
  /\ (forall w : world,
      postCountries (rt := json_runtime) (healthy not_found rates_200) w
      = (Sent {| status := 201; payload := Message "data refreshed" |},
         {| countries := countries w;
            summary_png :=
              Some (generateSummaryImage
                      (List.length (countries w))
                      (Countries.select_top5 (countries w)) 200) |}))
  /\ postCountries (rt := json_runtime)
                   (healthy error_with_list rates_200) empty_world
     = (Sent {| status := 201; payload := Message "data refreshed" |},
        {| countries := [france_refreshed];
           summary_png :=
             Some (generateSummaryImage
                     1 [("France", Some (1500000 # 10))] 200) |})
  /\ (forall w : world,
         postCountries_revised (rt := json_runtime)
                               (healthy not_found rates_200) w
         = (bad_gateway "Failed to fetch countries data from external API",
            w))
  /\ (forall w : world,
         postCountries_revised (rt := json_runtime)
                               (healthy error_with_list rates_200) w
         = (bad_gateway "Failed to fetch countries data from external API",
            w)).
Proof.
  repeat split; intros; reflexivity.
Qed.

(** ** Concrete inputs *)




Lemma replaceUndefined_leaves_primitives_witness :
  is_object VNull = false
  /\ replaceUndefined VNull requiredKeys = VNull
  /\ is_object (replaceUndefined VNull requiredKeys) = false
  /\ (forall key,
        get_own (replaceUndefined VNull requiredKeys) key = get_own VNull key)
  /\ ((forall s, VNull <> VStr s) ->
      forall key, get_own (replaceUndefined VNull requiredKeys) key = None).
Proof.
  split; [reflexivity|].
  apply (replaceUndefined_leaves_primitives VNull requiredKeys).
  reflexivity.
Defined.

Lemma upsert_conflict_overwrites_witness :
  execute_upsert true 100 france_params [france_row]
  = inr [Countries.updated france_row
           {| Countries.v_name := "France";
              Countries.v_capital := Some "Paris";
              Countries.v_region := Some "Europe";
              Countries.v_population := Some 1000;
              Countries.v_currency_code := Some "EUR";
              Countries.v_exchange_rate := Some 10;
              Countries.v_estimated_gdp := Some 150000;
              Countries.v_flag_url := Some "https://flagcdn.com/fr.svg";
              Countries.v_last_refreshed_at := 100%nat |}]
  /\ p_name france_params = VStr "France"
  /\ find (fun r => Countries.name r =? "France") [france_row]
     = Some france_row
  /\ exists (v : Countries.new_values) (new : Countries.row),
      Countries.bind_params france_params = Some v
      /\ Countries.capital new = Some "Paris"
      /\ Countries.estimated_gdp new = Some 150000
      /\ Countries.last_refreshed_at new = 100%nat
      /\ Countries.created_at new = 3%nat.
Proof.
  assert (H1 : execute_upsert true 100 france_params [france_row]
               = inr [Countries.updated france_row
                        {| Countries.v_name := "France";
                           Countries.v_capital := Some "Paris";
                           Countries.v_region := Some "Europe";
                           Countries.v_population := Some 1000;
                           Countries.v_currency_code := Some "EUR";
                           Countries.v_exchange_rate := Some 10;
                           Countries.v_estimated_gdp := Some 150000;
                           Countries.v_flag_url :=
                             Some "https://flagcdn.com/fr.svg";
                           Countries.v_last_refreshed_at := 100%nat |}])
    by reflexivity.
  assert (H2 : p_name france_params = VStr "France") by reflexivity.
  assert (H3 : find (fun r => Countries.name r =? "France") [france_row]
               = Some france_row) by reflexivity.
  split; [exact H1|]. split; [exact H2|]. split; [exact H3|].
  destruct (upsert_conflict_overwrites _ _ _ _ _ _ _ H1 H2 H3)
    as [v [new [Hb [_ [_ [Hc [_ [_ [_ [_ [Hg [_ [Hl [Hcr _]]]]]]]]]]]]]].
  exists v, new.
  assert (Hv : v = {| Countries.v_name := "France";
                      Countries.v_capital := Some "Paris";
                      Countries.v_region := Some "Europe";
                      Countries.v_population := Some 1000;
                      Countries.v_currency_code := Some "EUR";
                      Countries.v_exchange_rate := Some 10;
                      Countries.v_estimated_gdp := Some 150000;
                      Countries.v_flag_url := Some "https://flagcdn.com/fr.svg";
                      Countries.v_last_refreshed_at := 100%nat |}).
  { cbv in Hb. now injection Hb as <-. }
  split; [exact Hb|].
  rewrite Hc, Hg, Hl, Hcr, Hv. repeat split.
Defined.

Lemma one_row_per_name_witness :
  Countries.unique_names (countries empty_world)
  /\ (List.length
        (Countries.select_by_name
           "France"
           (countries
              (refreshes (rt := json_runtime)
                         [healthy three_records rates_200;
                          healthy error_with_list rates_200]
                         empty_world)))
      <= 1)%nat.
Proof.
  assert (H : Countries.unique_names (countries empty_world))
    by constructor.
  split; [exact H|].
  apply (one_row_per_name
           (rt := json_runtime)
           [healthy three_records rates_200; healthy error_with_list rates_200]
           empty_world "France" H).
Defined.

Lemma refresh_never_deletes_witness :
  Countries.has_name "France"
                     (countries {| countries := [france_row];
                                   summary_png := None |})
  /\ Countries.has_name
       "France"
       (countries
          (snd (postCountries (rt := json_runtime)
                              (healthy not_found rates_200)
                              {| countries := [france_row];
                                 summary_png := None |}))).
Proof.
  assert (H : Countries.has_name
                "France"
                (countries {| countries := [france_row];
                              summary_png := None |}))
    by (left; reflexivity).
  split; [exact H|].
  apply (refresh_never_deletes (rt := json_runtime) _ _ _ H).
Defined.

Lemma failure_keeps_earlier_records_witness :
  fetch_all three_records_env = inr (three_countries, sample_rates)
  /\ get three_countries "length" = inr (num_of_nat 3)
  /\ (1 < turns (to_number (rt := json_runtime) (num_of_nat 3))
                three_countries)%nat
  /\ process_each (rt := json_runtime) three_records_env sample_rates
                  three_countries 1 0 (countries empty_world)
     = ([france_refreshed], None)
  /\ item_record (rt := json_runtime) three_records_env sample_rates
                 three_countries 1
     = inr nameless_params
  /\ execute_upsert (execute_ok three_records_env 1)
                    (db_clock three_records_env 1) nameless_params
                    [france_refreshed]
     = inl StoreError
  /\ postCountries (rt := json_runtime) three_records_env empty_world
     = (failed_500, with_table empty_world [france_refreshed])
  /\ Countries.has_name "France" [france_refreshed]
  /\ ~ Countries.has_name "Antarctica" [france_refreshed].
Proof.
  assert (H1 : fetch_all three_records_env
               = inr (three_countries, sample_rates)) by reflexivity.
  assert (H2 : get three_countries "length" = inr (num_of_nat 3))
    by reflexivity.
  assert (H3 : (1 < turns (to_number (rt := json_runtime) (num_of_nat 3))
                          three_countries)%nat) by (cbv; lia).
  assert (H4 : process_each (rt := json_runtime) three_records_env
                            sample_rates three_countries 1 0
                            (countries empty_world)
               = ([france_refreshed], None)) by reflexivity.
  assert (H5 : item_record (rt := json_runtime) three_records_env
                           sample_rates three_countries 1
               = inr nameless_params) by reflexivity.
  assert (H6 : execute_upsert (execute_ok three_records_env 1)
                              (db_clock three_records_env 1) nameless_params
                              [france_refreshed]
               = inl StoreError) by reflexivity.
  destruct (failure_keeps_earlier_records
              (rt := json_runtime)
              three_records_env empty_world three_countries sample_rates
              (num_of_nat 3) 1 [france_refreshed]
              nameless_params StoreError H1 H2 H3 H4 H5 H6)
    as [Hrun [Hbefore Hafter]].
  repeat (split; [assumption|]).
  split.
  - left. reflexivity.
  - intros [H|[]]. discriminate H.
Defined.

(** * Further properties of the code *)

(** ** The normaliser on parsed documents *)



Lemma replaceUndefined_via_empty o ks :
  is_object o = true ->
  replaceUndefined o ks = ensure_keys ks (replaceUndefined o []).
Proof.
  intro H.
  apply is_object_cases in H as [[props ->]|[items [props ->]]]; reflexivity.
Qed.

Lemma ensure_keys_noop ks : forall o,
  (forall k, In k ks -> has_property o k = true) -> ensure_keys ks o = o.
Proof.
  unfold ensure_keys. induction ks as [|k ks IH]; intros o H; cbn; auto.
  rewrite (H k (or_introl eq_refl)). cbn. apply IH.
  intros k' Hk'. apply H. now right.
Qed.


(** ** The normaliser: what it does to the keys, and applying it twice *)

Lemma assoc_map_values (f : value -> value) k props :
  assoc k (map (fun kv => (fst kv, f (snd kv))) props)
  = option_map f (assoc k props).
Proof.
  induction props as [|[k' v] rest IH]; cbn; auto.
  destruct (k' =? k); auto.
Qed.

Lemma get_own_normalised o k :
  get_own (replaceUndefined o []) k
  = option_map (visit_key (fun o => replaceUndefined o [])) (get_own o k).
Proof.
  destruct o as [| |b|n|s|items props|props]; try reflexivity.
  - cbn. unfold char_at.
    destruct (own_index k (String.length s)) as [i|].
    + now destruct (String.get i s).
    + now destruct (k =? "length").
  - rewrite replaceUndefined_arr. cbn. rewrite length_map.
    destruct (own_index k (List.length items)) as [i|].
    + now rewrite nth_error_map.
    + destruct (k =? "length"); [reflexivity|]. apply assoc_map_values.
  - rewrite replaceUndefined_obj. cbn. apply assoc_map_values.
Qed.

Lemma has_property_normalised o k :
  has_property (replaceUndefined o []) k = has_property o k.
Proof.
  unfold has_property. rewrite get_own_normalised.
  now destruct (get_own o k).
Qed.




Lemma assoc_set_map_values (f : value -> value) k props :
  f VNull = VNull ->
  map (fun kv => (fst kv, f (snd kv))) (assoc_set k VNull props)
  = assoc_set k VNull (map (fun kv => (fst kv, f (snd kv))) props).
Proof.
  intro Hf. induction props as [|[k' v] rest IH]; cbn.
  - now rewrite Hf.
  - destruct (k' =? k); cbn; [now rewrite Hf|now rewrite IH].
Qed.

Lemma list_set_map (f : value -> value) x l : forall i,
  map f (list_set i x l) = list_set i (f x) (map f l).
Proof.
  induction l as [|y r IH]; intros [|i]; cbn; auto. now rewrite IH.
Qed.

Lemma normalise_set_property o k :
  replaceUndefined (set_property o k VNull) []
  = set_property (replaceUndefined o []) k VNull.
Proof.
  destruct o as [| |b|n|s|items props|props]; try reflexivity.
  - cbn [set_property]. rewrite replaceUndefined_arr.
    cbn [ensure_keys fold_left set_property]. rewrite length_map.
    destruct (own_index k (List.length items)) as [i|].
    + rewrite replaceUndefined_arr. cbn [ensure_keys fold_left].
      now rewrite list_set_map.
    + rewrite replaceUndefined_arr. cbn [ensure_keys fold_left].
      now rewrite (assoc_set_map_values _ k props eq_refl).
  - cbn [set_property]. rewrite !replaceUndefined_obj.
    cbn [ensure_keys fold_left set_property].
    now rewrite (assoc_set_map_values _ k props eq_refl).
Qed.

Lemma normalise_ensure_keys ks : forall o,
  replaceUndefined (ensure_keys ks o) []
  = ensure_keys ks (replaceUndefined o []).
Proof.
  unfold ensure_keys. induction ks as [|k ks IH]; intro o; cbn; auto.
  rewrite IH, has_property_normalised.
  destruct (has_property o k); cbn; auto.
  now rewrite normalise_set_property.
Qed.

Lemma normalise_twice v :
  let self := fun o => replaceUndefined o [] in
  visit_key self (visit_key self v) = visit_key self v
  /\ map_item self (map_item self v) = map_item self v
  /\ replaceUndefined (replaceUndefined v []) [] = replaceUndefined v [].
Proof.
  induction v as [| |b|n|s|items props IHi IHp|props IHp] using value_ind;
    intro self; try (repeat split; reflexivity).
  - assert (Hprops : map (fun kv => (fst kv, visit_key self (snd kv)))
                         (map (fun kv => (fst kv, visit_key self (snd kv)))
                              props)
                     = map (fun kv => (fst kv, visit_key self (snd kv))) props).
    { rewrite map_map. apply map_ext_Forall.
      eapply Forall_impl; [|exact IHp]. intros kv Hkv. cbn.
      f_equal. apply Hkv. }
    assert (Hr : replaceUndefined (replaceUndefined (VArr items props) []) []
                 = replaceUndefined (VArr items props) []).
    { rewrite !replaceUndefined_arr. cbn [ensure_keys fold_left].
      rewrite replaceUndefined_arr. cbn [ensure_keys fold_left].
      fold self. rewrite Hprops. f_equal.
      rewrite map_map. apply map_ext_Forall.
      eapply Forall_impl; [|exact IHi]. intros x Hx. apply Hx. }
    repeat split; auto.
    cbn [visit_key]. f_equal.
    rewrite map_map. apply map_ext_Forall.
    eapply Forall_impl; [|exact IHi]. intros x Hx. apply Hx.
  - assert (Hr : replaceUndefined (replaceUndefined (VObj props) []) []
                 = replaceUndefined (VObj props) []).
    { rewrite !replaceUndefined_obj. cbn [ensure_keys fold_left].
      rewrite replaceUndefined_obj. cbn [ensure_keys fold_left].
      fold self. f_equal.
      rewrite map_map. apply map_ext_Forall.
      eapply Forall_impl; [|exact IHp]. intros kv Hkv. cbn.
      f_equal. apply Hkv. }
    repeat split; auto.
Qed.

Lemma ensure_keys_twice ks o :
  is_object o = true ->
  ensure_keys ks (ensure_keys ks o) = ensure_keys ks o.
Proof.
  intro Ho. apply ensure_keys_noop.
  intros k Hk. apply ensure_keys_has; auto.
Qed.

(** X3.  Normalising is idempotent: a second pass with the same required
    keys returns what the first pass returned, for every input. *)
Theorem replaceUndefined_idempotent :
  forall (obj : value) (keys : list string),
    replaceUndefined (replaceUndefined obj keys) keys
    = replaceUndefined obj keys.
Proof.
  intros obj ks.
  destruct (is_object obj) eqn:Ho.
  - assert (Ho' : is_object (replaceUndefined obj []) = true)
      by now apply is_object_replaceUndefined.
    rewrite (replaceUndefined_via_empty obj ks Ho).
    rewrite replaceUndefined_via_empty by now apply is_object_ensure_keys.
    rewrite normalise_ensure_keys.
    rewrite (proj2 (proj2 (normalise_twice obj))).
    now apply ensure_keys_twice.
  - assert (E : replaceUndefined obj ks = obj).
    { destruct obj; try reflexivity; discriminate. }
    now rewrite !E.
Qed.

(** ** The record derived from one entry of the directory *)

Section Records.
Context {rt : Runtime}.







Lemma string_of_nat_digits i k :
  NilEmpty.uint_of_string k = None -> (string_of_nat i =? k) = false.
Proof.
  intro H. apply String.eqb_neq. intros E. unfold string_of_nat in E.
  pose proof (NilEmpty.usu (Nat.to_uint i)) as U.
  rewrite E, H in U. discriminate.
Qed.

Lemma own_index_not_a_number k len :
  NilEmpty.uint_of_string k = None -> own_index k len = None.
Proof.
  intro H. unfold own_index.
  induction (seq 0 len) as [|i l IH]; cbn; auto.
  now rewrite string_of_nat_digits.
Qed.

Lemma exchange_rate_throws code ex err :
  exchange_rate code ex = inl err -> err = TypeError.
Proof.
  unfold exchange_rate, get, bind.
  destruct (truthy code); [|discriminate].
  destruct (nullish ex); cbn; [|discriminate].
  intro H. now injection H as <-.
Qed.

Lemma record_of_primitive ex item u now :
  is_object item = false ->
  record_of ex item u now = inl TypeError
  \/ exists p, record_of ex item u now = inr p /\ p_name p = VUndefined.
Proof.
  intro Ho.
  assert (E : replaceUndefined item requiredKeys = item).
  { destruct item; try reflexivity; discriminate. }
  unfold record_of. rewrite E.
  destruct (nullish item) eqn:Hn.
  - left. unfold get. now rewrite Hn.
  - assert (Hname : get item "name" = inr VUndefined).
    { unfold get. rewrite Hn.
      destruct item as [| |b|n|s|items props|props];
        try reflexivity; try discriminate.
      cbn. now rewrite own_index_not_a_number. }
    rewrite Hname. unfold get. rewrite Hn. cbn [bind ret].
    destruct (exchange_rate _ ex) as [err|rate] eqn:R; cbn [bind].
    + left. apply exchange_rate_throws in R. now subst.
    + right. eexists. split; reflexivity.
Qed.

(** X5.  An entry of the list that is not an object (null, a number, a
    string, a boolean, or no entry at all at that index) ends the run at
    its turn with a TypeError, whatever the table and the store: either
    destructuring throws, or the driver refuses the undefined name. *)
Theorem non_object_entry_aborts :
  forall (e : env) (exchangeRateData countriesData item : value)
         (i : nat) (t : Countries.table),
    get countriesData (string_of_nat i) = inr item ->
    is_object item = false ->
    iteration e exchangeRateData countriesData i t = inl TypeError.
Proof.
  intros e ex data item i t Hget Ho.
  unfold iteration, item_record. rewrite Hget. cbn [bind].
  destruct (record_of_primitive ex item (random e i) (js_clock e i) Ho)
    as [-> | [p [-> Hp]]]; [reflexivity|].
  cbn [bind]. unfold execute_upsert. now rewrite Hp.
Qed.



End Records.

(** ** The statement of the loop on the table *)

Module UpsertFacts.
Import Countries.

Lemma upsert_absent now v t :
  ~ In (v_name v) (map name t) -> upsert now v t = t ++ [inserted now v].
Proof.
  induction t as [|r rest IH]; cbn; intro H; auto.
  destruct (name r =? v_name v) eqn:E.
  - apply String.eqb_eq in E. tauto.
  - f_equal. apply IH. tauto.
Qed.

Lemma upsert_find now v t :
  find (fun r => name r =? v_name v) (upsert now v t)
  = Some match find (fun r => name r =? v_name v) t with
         | Some old => updated old v
         | None => inserted now v
         end.
Proof.
  induction t as [|r rest IH]; cbn.
  - now rewrite String.eqb_refl.
  - destruct (name r =? v_name v) eqn:E; cbn; now rewrite E.
Qed.

Lemma upsert_others now v t :
  delete_by_name (v_name v) (upsert now v t) = delete_by_name (v_name v) t.
Proof.
  unfold delete_by_name.
  induction t as [|r rest IH]; cbn.
  - now rewrite String.eqb_refl.
  - destruct (name r =? v_name v) eqn:E; cbn; rewrite E; cbn; auto.
    now rewrite IH.
Qed.

Lemma upsert_select_other now v t m :
  m <> v_name v ->
  select_by_name m (upsert now v t) = select_by_name m t.
Proof.
  intro Hm. unfold select_by_name.
  induction t as [|r rest IH]; cbn.
  - apply not_eq_sym in Hm. apply String.eqb_neq in Hm. now rewrite Hm.
  - destruct (name r =? v_name v) eqn:E; cbn.
    + apply String.eqb_eq in E.
      assert (Hne : (name r =? m) = false).
      { apply String.eqb_neq. congruence. }
      now rewrite Hne.
    + now rewrite IH.
Qed.

Lemma select_by_name_find n t r :
  unique_names t ->
  find (fun r => name r =? n) t = Some r -> select_by_name n t = [r].
Proof.
  unfold unique_names, select_by_name.
  induction t as [|x rest IH]; cbn; intros Hu Hf; [discriminate|].
  inversion Hu as [|y l Hnotin Hrest]; subst.
  destruct (name x =? n) eqn:E.
  - injection Hf as <-. f_equal.
    apply String.eqb_eq in E. subst n.
    now apply CountriesFacts.select_by_name_absent.
  - now apply IH.
Qed.

Lemma bind_params_name p v :
  bind_params p = Some v ->
  p_name p = VStr (v_name v)
  /\ v_last_refreshed_at v = p_last_refreshed_at p.
Proof.
  unfold bind_params, bind_name. intro H.
  destruct (p_name p); try discriminate.
  repeat match type of H with
         | match ?x with _ => _ end = _ => destruct x; try discriminate
         end.
  injection H as <-. auto.
Qed.

End UpsertFacts.

(** X7.  A statement that succeeds on a name no row carries appends one
    row at the end of the table, with the bound values and with
    [created_at] set to the clock of the store, and leaves every earlier
    row as it was. *)
Theorem upsert_fresh_appends :
  forall (up : bool) (now : nat) (p : params) (n : string)
         (t t' : Countries.table),
    execute_upsert up now p t = inr t' ->
    p_name p = VStr n ->
    ~ Countries.has_name n t ->
    exists v : Countries.new_values,
      Countries.bind_params p = Some v
      /\ t' = t ++ [Countries.inserted now v]
      /\ Countries.created_at (Countries.inserted now v) = now
      /\ List.length t' = S (List.length t).
Proof.
  intros up now p n t t' Hex Hname Hfresh.
  apply execute_upsert_inv in Hex as [v [Hb ->]].
  destruct (UpsertFacts.bind_params_name p v Hb) as [Hn _].
  rewrite Hname in Hn. injection Hn as ->.
  exists v. split; [exact Hb|].
  rewrite UpsertFacts.upsert_absent by exact Hfresh.
  repeat split. rewrite length_app. cbn. lia.
Qed.

(** X8.  An upsert touches rows of its own name only: the rows of every
    other name are the same rows in the same order afterwards, so a
    lookup by another name returns what it returned before. *)
Theorem upsert_leaves_other_names :
  forall (now : nat) (v : Countries.new_values) (t : Countries.table),
    Countries.delete_by_name (Countries.v_name v) (Countries.upsert now v t)
    = Countries.delete_by_name (Countries.v_name v) t
    /\ (forall m, m <> Countries.v_name v ->
          Countries.select_by_name m (Countries.upsert now v t)
          = Countries.select_by_name m t).
Proof.
  intros now v t. split.
  - apply UpsertFacts.upsert_others.
  - intros m Hm. now apply UpsertFacts.upsert_select_other.
Qed.

(** X9.  The last write wins, and the first write dates the row: two
    upserts of one name leave the table that the second set of values
    alone leaves when written at the time of the first.  In particular
    writing the same values twice changes nothing the second time. *)
Theorem upsert_last_write_wins :
  forall (now1 now2 : nat) (v1 v2 : Countries.new_values)
         (t : Countries.table),
    Countries.v_name v1 = Countries.v_name v2 ->
    Countries.upsert now2 v2 (Countries.upsert now1 v1 t)
    = Countries.upsert now1 v2 t.
Proof.
  intros now1 now2 v1 v2 t Hn.
  induction t as [|r rest IH]; cbn.
  - rewrite Hn, String.eqb_refl. unfold Countries.updated, Countries.inserted.
    cbn. now rewrite Hn.
  - rewrite Hn. destruct (Countries.name r =? Countries.v_name v2) eqn:E; cbn.
    + now rewrite E.
    + rewrite E. f_equal. exact IH.
Qed.

(** X10.  Write, then read.  After a statement that succeeds on a table
    with distinct names, [getCountry] for that name answers with exactly
    one row: the bound values on top of the old row's [name] and
    [created_at] when there was one, the freshly inserted row
    otherwise. *)
Theorem upsert_then_getCountry :
  forall (up : bool) (now : nat) (p : params) (n : string) (w : world)
         (t' : Countries.table),
    Countries.unique_names (countries w) ->
    execute_upsert up now p (countries w) = inr t' ->
    p_name p = VStr n ->
    exists v : Countries.new_values,
      Countries.bind_params p = Some v
      /\ getCountry true n (with_table w t')
         = Sent {| status := 200;
                   payload :=
                     Rows [match find (fun r => Countries.name r =? n)
                                      (countries w) with
                           | Some old => Countries.updated old v
                           | None => Countries.inserted now v
                           end] |}.
Proof.
  intros up now p n w t' Hu Hex Hname.
  apply execute_upsert_inv in Hex as [v [Hb ->]].
  destruct (UpsertFacts.bind_params_name p v Hb) as [Hn _].
  rewrite Hname in Hn. injection Hn as ->.
  exists v. split; [exact Hb|].
  unfold getCountry. cbn [with_table countries]. do 3 f_equal.
  apply UpsertFacts.select_by_name_find.
  - now apply CountriesFacts.upsert_unique.
  - apply UpsertFacts.upsert_find.
Qed.

(** ** The listing of [getCountries] *)

Module ListingFacts.
Import Countries.

Lemma text_is_spec x c : text_is x c = true <-> c = Some x.
Proof.
  unfold text_is. destruct c as [s|]; split; intro H; try discriminate.
  - apply String.eqb_eq in H. now subst.
  - injection H as ->. apply String.eqb_refl.
Qed.

Lemma insert_desc_perm r l : Permutation (insert_desc r l) (r :: l).
Proof.
  induction l as [|x rest IH]; cbn; auto.
  destruct (gdp_ge (estimated_gdp r) (estimated_gdp x)); auto.
  rewrite IH. apply perm_swap.
Qed.

Lemma order_by_perm t : Permutation (order_by_estimated_gdp_desc t) t.
Proof.
  unfold order_by_estimated_gdp_desc.
  induction t as [|r rest IH]; cbn; auto.
  rewrite insert_desc_perm. now constructor.
Qed.

Lemma in_skipn {A : Type} (y : A) n : forall l,
  In y (skipn n l) -> In y l.
Proof.
  induction n as [|n IH]; intros [|x r]; cbn; auto.
Qed.

Lemma sorted_split (R : row -> row -> Prop) l :
  StronglySorted R l ->
  forall n x y, In x (firstn n l) -> In y (skipn n l) -> R x y.
Proof.
  induction 1 as [|a rest Hs IH Hall]; intros n x y Hx Hy.
  - destruct n; contradiction.
  - destruct n as [|n]; cbn in *; [contradiction|].
    destruct Hx as [<-|Hx].
    + rewrite Forall_forall in Hall. apply Hall.
      eapply in_skipn; eauto.
    + eapply IH; eauto.
Qed.

End ListingFacts.

(** X11.  Filtering.  With the store up, [getCountries] answers 200 with
    rows of the table, and a row of the table is listed exactly when its
    region equals the [region] parameter, if one is given, and its
    currency code equals the [currency] parameter, if one is given.  An
    empty parameter counts as not given; a row whose column is NULL
    matches no given parameter. *)
Theorem getCountries_filters :
  forall (q : query) (w : world),
  exists rows,
    getCountries true q w = Sent {| status := 200; payload := Rows rows |}
    /\ forall r,
        In r rows <->
        In r (countries w)
        /\ (given (q_region q) = true ->
            Countries.region r = Some (param (q_region q)))
        /\ (given (q_currency q) = true ->
            Countries.currency_code r = Some (param (q_currency q))).
Proof.
  intros q w. eexists. split; [reflexivity|].
  intro r. unfold countries_query.
  set (conditions := _ ++ _).
  set (rows := if (0 <? List.length conditions)%nat
               then Countries.select_where conditions (countries w)
               else countries w).
  assert (Hrows : In r rows <->
                  In r (countries w)
                  /\ (given (q_region q) = true ->
                      Countries.region r = Some (param (q_region q)))
                  /\ (given (q_currency q) = true ->
                      Countries.currency_code r
                      = Some (param (q_currency q)))).
  { subst rows conditions. unfold Countries.select_where.
    destruct (given (q_region q)), (given (q_currency q)); cbn;
      rewrite ?filter_In; cbn;
      rewrite ?andb_true_iff, ?ListingFacts.text_is_spec;
      intuition discriminate. }
  destruct (param (q_sort q) =? "gdp_desc"); [|exact Hrows].
  rewrite <- Hrows. split; apply Permutation_in.
  - apply ListingFacts.order_by_perm.
  - symmetry. apply ListingFacts.order_by_perm.
Qed.

(** X12.  Sorting loses nothing.  The listing under [sort=gdp_desc] is a
    rearrangement of the listing without [sort], row for row; and any
    other value of [sort] is ignored: the listing is the unsorted one. *)
Theorem getCountries_sort_rearranges :
  forall (region currency : option string) (s : string)
         (t : Countries.table),
    Permutation
      (countries_query {| q_region := region; q_currency := currency;
                          q_sort := Some "gdp_desc" |} t)
      (countries_query {| q_region := region; q_currency := currency;
                          q_sort := None |} t)
    /\ (s <> "gdp_desc" ->
        countries_query {| q_region := region; q_currency := currency;
                           q_sort := Some s |} t
        = countries_query {| q_region := region; q_currency := currency;
                             q_sort := None |} t).
Proof.
  intros region currency s t. split.
  - unfold countries_query. cbn [q_sort q_region q_currency param].
    rewrite String.eqb_refl.
    change (EmptyString =? "gdp_desc") with false. cbv iota.
    apply ListingFacts.order_by_perm.
  - intro Hs. apply String.eqb_neq in Hs.
    unfold countries_query. cbn [q_sort q_region q_currency param].
    rewrite Hs. reflexivity.
Qed.

(** X13.  The five rows of the summary are the top of the table: there
    are as many as the table has rows, up to five, and no row left out
    has an estimated GDP that ranks above that of a row taken (NULL
    ranking lowest). *)
Theorem select_top5_takes_the_top :
  forall t : Countries.table,
    List.length (Countries.select_top5 t) = Nat.min 5 (List.length t)
    /\ exists top rest : list Countries.row,
        Permutation t (top ++ rest)
        /\ Countries.select_top5 t
           = map (fun r => (Countries.name r, Countries.estimated_gdp r)) top
        /\ forall x y, In x top -> In y rest ->
             Countries.gdp_ge (Countries.estimated_gdp x)
                              (Countries.estimated_gdp y) = true.
Proof.
  intro t.
  set (sorted := Countries.order_by_estimated_gdp_desc t).
  split.
  - unfold Countries.select_top5. fold sorted.
    rewrite length_map, length_firstn. unfold sorted.
    now rewrite (Permutation_length (ListingFacts.order_by_perm t)).
  - exists (firstn 5 sorted), (skipn 5 sorted). repeat split.
    + rewrite firstn_skipn. symmetry. apply ListingFacts.order_by_perm.
    + intros x y Hx Hy.
      apply (ListingFacts.sorted_split _ sorted
               (OrderFacts.order_by_sorted t) 5 x y Hx Hy).
Qed.

(** ** Deleting, and serving the image *)

Lemma with_table_same w : with_table w (countries w) = w.
Proof. now destruct w. Qed.

Lemma delete_absent n t :
  ~ Countries.has_name n t -> Countries.delete_by_name n t = t.
Proof.
  unfold Countries.has_name, Countries.delete_by_name.
  induction t as [|r rest IH]; cbn; intro H; auto.
  destruct (Countries.name r =? n) eqn:E; cbn.
  - apply String.eqb_eq in E. tauto.
  - f_equal. apply IH. tauto.
Qed.

Lemma select_after_delete n m t :
  Countries.select_by_name m (Countries.delete_by_name n t)
  = if m =? n then [] else Countries.select_by_name m t.
Proof.
  unfold Countries.select_by_name, Countries.delete_by_name.
  induction t as [|r rest IH]; cbn.
  - now destruct (m =? n).
  - destruct (Countries.name r =? n) eqn:En; cbn.
    + rewrite IH. apply String.eqb_eq in En.
      destruct (m =? n) eqn:Em; auto.
      assert (Hrm : (Countries.name r =? m) = false).
      { apply String.eqb_neq. apply String.eqb_neq in Em. congruence. }
      now rewrite Hrm.
    + rewrite IH. destruct (m =? n) eqn:Em; auto.
      apply String.eqb_eq in Em. subst m. now rewrite En.
Qed.

(** X14.  [deleteCountry] of src/controller.js answers 200 "Country
    deleted" whether or not a row had the name.  Afterwards a lookup of
    the name finds nothing, a lookup of any other name finds what it
    found before, and when no row had the name the world is unchanged. *)
Theorem deleteCountry_removes_name :
  forall (n : string) (w : world),
    fst (deleteCountry true n w)
    = Sent {| status := 200; payload := Message "Country deleted" |}
    /\ getCountry true n (snd (deleteCountry true n w))
       = Sent {| status := 200; payload := Rows [] |}
    /\ (forall m, m <> n ->
          getCountry true m (snd (deleteCountry true n w))
          = getCountry true m w)
    /\ (~ Countries.has_name n (countries w) ->
        snd (deleteCountry true n w) = w).
Proof.
  intros n w. unfold deleteCountry, getCountry. cbn [fst snd with_table countries].
  repeat split.
  - rewrite select_after_delete. now rewrite String.eqb_refl.
  - intros m Hm. rewrite select_after_delete.
    apply String.eqb_neq in Hm. now rewrite Hm.
  - intro H. rewrite delete_absent by exact H. apply with_table_same.
Qed.

Section Outcomes.
Context {rt : Runtime}.

(** X15.  [postCountries] never lets an exception escape and knows two
    answers only.  With 201 the image [getImg] serves next is the summary
    of the table as the run left it, stamped with the renderer's clock;
    with 500 [getImg] serves what it served before the run: the old
    image, or its 404 when there was none. *)
Theorem refresh_outcomes :
  forall (e : env) (w : world),
    (fst (postCountries e w)
     = Sent {| status := 201; payload := Message "data refreshed" |}
     /\ getImg (snd (postCountries e w))
        = Png (generateSummaryImage
                 (List.length (countries (snd (postCountries e w))))
                 (Countries.select_top5 (countries (snd (postCountries e w))))
                 (render_clock e)))
    \/ (fst (postCountries e w) = failed_500
        /\ getImg (snd (postCountries e w)) = getImg w).
Proof.
  intros e w. unfold postCountries.
  destruct (fetch_all e) as [err|[data ex]]; [now right|].
  unfold process_and_finish.
  destruct (get data "length") as [err|len]; [now right|].
  destruct (process_each e ex data _ 0 (countries w)) as [t [err|]];
    [now right|].
  unfold finish, check, bind.
  destruct (select_all_ok e); [|now right].
  destruct (select_top5_ok e); [|now right].
  destruct (render_ok e); [|now right].
  now left.
Qed.

End Outcomes.

(** ** What a run writes, and what it leaves alone *)

Section Runs.
Context {rt : Runtime}.

Lemma map_fst_numbered {A : Type} (l : list A) : forall i,
  map fst (combine (seq i (List.length l)) l) = seq i (List.length l).
Proof.
  induction l as [|x r IH]; intro i; cbn; auto. now rewrite IH.
Qed.

Lemma success_table e w :
  fst (postCountries e w)
  = Sent {| status := 201; payload := Message "data refreshed" |} ->
  exists data ex len,
    fetch_all e = inr (data, ex)
    /\ get data "length" = inr len
    /\ process_each e ex data (turns (to_number len) data) 0 (countries w)
       = (countries (snd (postCountries e w)), None)
    /\ summary_png (snd (postCountries e w))
       = Some (generateSummaryImage
                 (List.length (countries (snd (postCountries e w))))
                 (Countries.select_top5 (countries (snd (postCountries e w))))
                 (render_clock e)).
Proof.
  unfold postCountries.
  destruct (fetch_all e) as [err|[data ex]]; [discriminate|].
  unfold process_and_finish.
  destruct (get data "length") as [err|len] eqn:G; [discriminate|].
  destruct (process_each e ex data _ 0 (countries w)) as [t [err|]] eqn:P;
    [discriminate|].
  unfold finish, check, bind.
  destruct (select_all_ok e); [|discriminate].
  destruct (select_top5_ok e); [|discriminate].
  destruct (render_ok e); [|discriminate].
  intros _. exists data, ex, len. cbn [fst snd countries summary_png].
  auto.
Qed.

(** X16.  The summary a successful run writes agrees with the table it
    leaves: the total is the number of rows, the lines are numbered 1, 2,
    ... and there are as many as rows, up to five, and every line shows
    the name and the estimated GDP of a row of the table. *)
Theorem summary_agrees_with_table :
  forall (e : env) (w : world),
    fst (postCountries e w)
    = Sent {| status := 201; payload := Message "data refreshed" |} ->
    exists img,
      summary_png (snd (postCountries e w)) = Some img
      /\ line_total img = List.length (countries (snd (postCountries e w)))
      /\ map fst (lines_top img)
         = seq 1 (Nat.min 5 (List.length (countries (snd (postCountries e w)))))
      /\ forall i n g, In (i, (n, g)) (lines_top img) ->
           exists r, In r (countries (snd (postCountries e w)))
                     /\ Countries.name r = n
                     /\ Countries.estimated_gdp r = g.
Proof.
  intros e w H.
  destruct (success_table e w H) as [data [ex [len [_ [_ [_ Himg]]]]]].
  set (t := countries (snd (postCountries e w))) in *.
  eexists. split; [exact Himg|]. cbn [line_total lines_top generateSummaryImage].
  repeat split.
  - rewrite map_fst_numbered. f_equal.
    unfold Countries.select_top5. rewrite length_map, length_firstn.
    now rewrite (Permutation_length (ListingFacts.order_by_perm t)).
  - intros i n g Hin. apply in_combine_r in Hin.
    unfold Countries.select_top5 in Hin.
    apply in_map_iff in Hin as [r [Hr Hin]]. injection Hr as <- <-.
    exists r. repeat split.
    apply OrderFacts.in_firstn in Hin.
    eapply Permutation_in; [apply ListingFacts.order_by_perm|exact Hin].
Qed.

Lemma turns_of_array n items props :
  turns (to_number (num_of_nat n)) (VArr items props) = n.
Proof.
  unfold turns, to_number, num_of_nat. rewrite Qceiling_Z.
  apply Nat2Z.id.
Qed.

Lemma get_array_length items props :
  get (VArr items props) "length" = inr (num_of_nat (List.length items)).
Proof.
  unfold get. cbn. now rewrite own_index_not_a_number.
Qed.

(** X17.  After a successful run over a list, every entry of the list
    has a row under its name, and the names of the table are those it
    had before and those of the entries: nothing else was written. *)
Theorem success_writes_every_record :
  forall (e : env) (w : world) (items : list value)
         (props : list (string * value)) (ex : value),
    fetch_all e = inr (VArr items props, ex) ->
    fst (postCountries e w)
    = Sent {| status := 201; payload := Message "data refreshed" |} ->
    (forall j, (j < List.length items)%nat ->
       exists p v,
         item_record e ex (VArr items props) j = inr p
         /\ Countries.bind_params p = Some v
         /\ Countries.has_name (Countries.v_name v)
                               (countries (snd (postCountries e w))))
    /\ (forall n,
          Countries.has_name n (countries (snd (postCountries e w))) ->
          Countries.has_name n (countries w)
          \/ exists j p v,
              (j < List.length items)%nat
              /\ item_record e ex (VArr items props) j = inr p
              /\ Countries.bind_params p = Some v
              /\ Countries.v_name v = n).
Proof.
  intros e w items props ex Hfetch H.
  destruct (success_table e w H) as [data [ex' [len [Hf [Hlen [Hloop _]]]]]].
  rewrite Hfetch in Hf. injection Hf as <- <-.
  rewrite get_array_length in Hlen. injection Hlen as <-.
  rewrite turns_of_array in Hloop.
  set (t := countries (snd (postCountries e w))) in *.
  split.
  - intros j Hj.
    apply (process_each_committed e ex _ _ 0 (countries w) t Hloop). lia.
  - intros n Hn.
    pose proof (process_each_origin e ex (VArr items props)
                  (List.length items) 0 (countries w) n) as Ho.
    rewrite Hloop in Ho. destruct (Ho Hn) as [H1|[j [p [v [Hj H2]]]]]; auto.
    right. exists j, p, v. split; auto. lia.
Qed.

(** A property of the table kept by every upsert under another name than
    [n] is kept by a loop none of whose records carries [n]. *)
Lemma process_each_keeps_unmentioned (I : Countries.table -> Prop) n e ex data :
  (forall now v t, Countries.v_name v <> n -> I t ->
                   I (Countries.upsert now v t)) ->
  (forall j p v, item_record e ex data j = inr p ->
                 Countries.bind_params p = Some v ->
                 Countries.v_name v <> n) ->
  forall k i t, I t -> I (fst (process_each e ex data k i t)).
Proof.
  intros Hstep Hrec k.
  induction k as [|k IH]; intros i t Ht; cbn; auto.
  destruct (iteration e ex data i t) as [err|t'] eqn:E; cbn; auto.
  apply iteration_inv in E as [p [v [Hp [Hv ->]]]].
  apply IH. apply Hstep; eauto.
Qed.

Lemma postCountries_keeps_unmentioned (I : Countries.table -> Prop) n e w :
  (forall now v t, Countries.v_name v <> n -> I t ->
                   I (Countries.upsert now v t)) ->
  (forall data ex j p v,
      fetch_all e = inr (data, ex) ->
      item_record e ex data j = inr p ->
      Countries.bind_params p = Some v ->
      Countries.v_name v <> n) ->
  I (countries w) -> I (countries (snd (postCountries e w))).
Proof.
  intros Hstep Hrec Hw. unfold postCountries.
  destruct (fetch_all e) as [err|[data ex]] eqn:F; cbn; auto.
  unfold process_and_finish.
  destruct (get data "length") as [err|len]; cbn; auto.
  pose proof (process_each_keeps_unmentioned
                I n e ex data Hstep
                (fun j p v => Hrec data ex j p v eq_refl)
                (turns (to_number len) data) 0 (countries w) Hw) as H.
  destruct (process_each e ex data _ 0 (countries w)) as [t [err|]];
    cbn in *; auto.
  now rewrite finish_table.
Qed.

(** X18.  A run leaves alone the rows it has no record for: when no
    record the run derives carries the name, a lookup of the name finds
    after the run exactly the rows it found before, unchanged in every
    column. *)
Theorem refresh_leaves_unmentioned_rows :
  forall (e : env) (w : world) (n : string),
    (forall data ex j p v,
        fetch_all e = inr (data, ex) ->
        item_record e ex data j = inr p ->
        Countries.bind_params p = Some v ->
        Countries.v_name v <> n) ->
    Countries.select_by_name n (countries (snd (postCountries e w)))
    = Countries.select_by_name n (countries w).
Proof.
  intros e w n Hrec.
  apply (postCountries_keeps_unmentioned
           (fun t => Countries.select_by_name n t
                     = Countries.select_by_name n (countries w)) n);
    auto.
  intros now v t Hv Ht. rewrite <- Ht.
  apply UpsertFacts.upsert_select_other. congruence.
Qed.

(** X19.  [getStatus] reports the first row's time, not the run's: when
    the first row of the table has a name no record of the run carries,
    after the run [getStatus] answers with the number of rows the run
    left and with the [last_refreshed_at] that row had before. *)
Theorem getStatus_after_refresh :
  forall (e : env) (w : world) (first : Countries.row)
         (rest : Countries.table),
    countries w = first :: rest ->
    (forall data ex j p v,
        fetch_all e = inr (data, ex) ->
        item_record e ex data j = inr p ->
        Countries.bind_params p = Some v ->
        Countries.v_name v <> Countries.name first) ->
    getStatus true (snd (postCountries e w))
    = Sent {| status := 200;
              payload :=
                Status (List.length (countries (snd (postCountries e w))))
                       (Some (Countries.last_refreshed_at first)) |}.
Proof.
  intros e w first rest Hw Hrec.
  assert (H : exists rest', countries (snd (postCountries e w))
                            = first :: rest').
  { apply (postCountries_keeps_unmentioned
             (fun t => exists rest', t = first :: rest')
             (Countries.name first)); eauto.
    intros now v t Hv [rest' ->]. cbn.
    destruct (Countries.name first =? Countries.v_name v) eqn:E; eauto.
    apply String.eqb_eq in E. congruence. }
  destruct H as [rest' H]. unfold getStatus. now rewrite H.
Qed.

End Runs.

(** ** The revision in src/database.js *)

Lemma ok_range st b :
  ok (st, b) = true <-> (200 <= st <= 299)%nat.
Proof.
  unfold ok. cbn [fst]. rewrite andb_true_iff, !Nat.leb_le. tauto.
Qed.

Lemma fetch_checked_fails f :
  f = Rejected
  \/ (exists st b, f = Response st b /\ (st < 200 \/ 299 < st)%nat) ->
  fetch_checked f = inl FetchError.
Proof.
  intros [->|[st [b [-> H]]]]; [reflexivity|].
  unfold fetch_checked, await_fetch, bind, check. cbn [ret].
  destruct (ok (st, b)) eqn:E; [|reflexivity].
  apply ok_range in E. lia.
Qed.

Lemma fetch_checked_passes st b :
  (200 <= st <= 299)%nat -> fetch_checked (Response st b) = inr (st, b).
Proof.
  intro H. apply ok_range with (b := b) in H.
  unfold fetch_checked, await_fetch, bind, check. cbn [ret]. now rewrite H.
Qed.

Section Revision.
Context {rt : Runtime}.

(** X20.  The revised [postCountries] stops at the first source that
    fails, with 502 and a message of its own, and writes nothing: the
    directory rejected or answering outside 200-299; then the rate source
    likewise; then a body that is not JSON, or a rate document that is
    null. *)
Theorem postCountries_revised_gateway_failures :
  forall (e : env) (w : world),
    create_table_ok e = true ->
    (countries_api e = Rejected
     \/ (exists st b, countries_api e = Response st b
                      /\ (st < 200 \/ 299 < st)%nat) ->
     postCountries_revised e w
     = (bad_gateway "Failed to fetch countries data from external API", w))
    /\ (forall st b,
          countries_api e = Response st b -> (200 <= st <= 299)%nat ->
          rates_api e = Rejected
          \/ (exists st' b', rates_api e = Response st' b'
                             /\ (st' < 200 \/ 299 < st')%nat) ->
          postCountries_revised e w
          = (bad_gateway "Failed to fetch exchange rates from external API",
             w))
    /\ (forall st b st' b',
          countries_api e = Response st b -> (200 <= st <= 299)%nat ->
          rates_api e = Response st' b' -> (200 <= st' <= 299)%nat ->
          b = None \/ b' = None \/ b' = Some VNull ->
          postCountries_revised e w
          = (bad_gateway "Invalid response from external APIs", w)).
Proof.
  intros e w Hc. unfold postCountries_revised. rewrite Hc. cbn [check ret].
  repeat split.
  - intro H. now rewrite (fetch_checked_fails _ H).
  - intros st b Hd Hst H. rewrite Hd, fetch_checked_passes by exact Hst.
    now rewrite (fetch_checked_fails _ H).
  - intros st b st' b' Hd Hst Hr Hst' H.
    rewrite Hd, Hr, !fetch_checked_passes by assumption.
    destruct H as [-> | [-> | ->]]; try reflexivity;
      destruct b; reflexivity.
Qed.

(** X21.  The revision changes nothing else: when both sources answer
    within 200-299 and the original handler gets as far as its loop, the
    two handlers give the same answer and leave the same world. *)
Theorem postCountries_revised_agrees :
  forall (e : env) (w : world) (st st' : nat) (b b' : option value)
         (countriesData exchangeRateData : value),
    countries_api e = Response st b -> (200 <= st <= 299)%nat ->
    rates_api e = Response st' b' -> (200 <= st' <= 299)%nat ->
    fetch_all e = inr (countriesData, exchangeRateData) ->
    postCountries_revised e w = postCountries e w.
Proof.
  intros e w st st' b b' data ex Hd Hst Hr Hst' Hf.
  unfold postCountries. rewrite Hf.
  unfold postCountries_revised.
  unfold fetch_all in Hf. rewrite Hd, Hr in Hf.
  rewrite Hd, Hr, !fetch_checked_passes by assumption.
  destruct (create_table_ok e); [|discriminate].
  cbn [check ret bind await_fetch] in *.
  now rewrite Hf.
Qed.

End Revision.

(** X22.  The revised [getStatus] answers where the original throws.
    With the store up it sends 200 in every case: on the empty table the
    count under the key [total], as 0 with a null time, where the
    original throws; on any other table the same count and time as the
    original, under the key [total_countries].  With the store down it
    sends 500 where the original throws. *)
Theorem getStatus_revised_covers_original :
  forall w : world,
    (countries w = [] ->
     getStatus true w = Threw TypeError
     /\ getStatus_revised true w
        = {| r_status := 200; r_payload := RTotal 0 None |})
    /\ (forall total last,
          getStatus true w
          = Sent {| status := 200; payload := Status total last |}
          <-> getStatus_revised true w
              = {| r_status := 200;
                   r_payload := RTotalCountries total last |})
    /\ getStatus false w = Threw StoreError
    /\ getStatus_revised false w = database_failed.
Proof.
  intro w. unfold getStatus, getStatus_revised.
  destruct (countries w) as [|first rest]; cbn.
  - repeat split; auto; try discriminate.
  - repeat split; try discriminate; intro H; injection H as <- <-; auto.
Qed.

Lemma null_flag_then_gdp_is_gdp_ge a b :
  null_flag_then_gdp a b
  = Countries.gdp_ge (Countries.estimated_gdp a) (Countries.estimated_gdp b).
Proof.
  unfold null_flag_then_gdp.
  destruct (Countries.estimated_gdp a), (Countries.estimated_gdp b);
    reflexivity.
Qed.

Lemma sort_by_null_flag t :
  sort_by null_flag_then_gdp t = Countries.order_by_estimated_gdp_desc t.
Proof.
  unfold sort_by, Countries.order_by_estimated_gdp_desc.
  induction t as [|r rest IH]; cbn; auto.
  rewrite IH. generalize (fold_right Countries.insert_desc [] rest).
  intro l. induction l as [|x l IHl]; cbn; auto.
  rewrite null_flag_then_gdp_is_gdp_ge.
  destruct (Countries.gdp_ge _ _); auto. now rewrite IHl.
Qed.

(** X23.  The revised [getCountries] refuses a [sort] other than
    [gdp_desc] with 400 before it asks the store; otherwise it lists
    exactly the rows the original lists, in the same order:
    [ORDER BY estimated_gdp IS NULL ASC, estimated_gdp DESC] and
    [ORDER BY estimated_gdp DESC] order the table alike. *)
Theorem getCountries_revised_agrees :
  forall (store_up : bool) (q : query) (w : world),
    (given (q_sort q) = true -> param (q_sort q) <> "gdp_desc" ->
     r_status (getCountries_revised store_up q w) = 400%nat)
    /\ (given (q_sort q) = false \/ param (q_sort q) = "gdp_desc" ->
        forall rows,
          getCountries true q w
          = Sent {| status := 200; payload := Rows rows |}
          <-> getCountries_revised true q w
              = {| r_status := 200; r_payload := RRows rows |}).
Proof.
  intros store_up q w. unfold getCountries_revised, getCountries. split.
  - intros Hg Hs. apply String.eqb_neq in Hs. now rewrite Hg, Hs.
  - intros H rows.
    assert (E : given (q_sort q) && negb (param (q_sort q) =? "gdp_desc")
                = false).
    { destruct H as [-> | ->]; [reflexivity|].
      rewrite String.eqb_refl. apply andb_false_r. }
    rewrite E.
    assert (Q : countries_query_revised q (countries w)
                = countries_query q (countries w)).
    { unfold countries_query_revised, countries_query.
      destruct (param (q_sort q) =? "gdp_desc"); auto.
      apply sort_by_null_flag. }
    rewrite Q. split; intro R; injection R as <-; reflexivity.
Qed.

(** X24.  The revised [getCountry], for a non-empty name and with the
    store up: 404 exactly when no row has the name; otherwise 200 with a
    row of the table that has the name, the first the original handler
    lists. *)
Theorem getCountry_revised_finds :
  forall (n : string) (w : world),
    n <> EmptyString ->
    (r_status (getCountry_revised true n w) = 404%nat
     <-> ~ Countries.has_name n (countries w))
    /\ (Countries.has_name n (countries w) ->
        exists r more,
          getCountry_revised true n w
          = {| r_status := 200; r_payload := RRow r |}
          /\ getCountry true n w
             = Sent {| status := 200; payload := Rows (r :: more) |}
          /\ In r (countries w)
          /\ Countries.name r = n).
Proof.
  intros n w Hn. apply String.eqb_neq in Hn.
  unfold getCountry_revised, getCountry. rewrite Hn.
  destruct (Countries.select_by_name n (countries w)) as [|r more] eqn:S;
    cbn.
  - split.
    + split; auto. intros _ Hhas.
      apply CountriesFacts.select_by_name_present in Hhas.
      rewrite S in Hhas. cbn in Hhas. lia.
    + intro Hhas. apply CountriesFacts.select_by_name_present in Hhas.
      rewrite S in Hhas. cbn in Hhas. lia.
  - assert (Hr : In r (countries w) /\ Countries.name r = n).
    { assert (Hin : In r (Countries.select_by_name n (countries w)))
        by (rewrite S; now left).
      unfold Countries.select_by_name in Hin.
      apply filter_In in Hin as [Hin E].
      apply String.eqb_eq in E. auto. }
    split.
    + split; [discriminate|]. intro Habs. exfalso. apply Habs.
      destruct Hr as [Hin <-]. now apply in_map.
    + intros _. exists r, more. tauto.
Qed.

(** X25.  The revised [deleteCountry], for a non-empty name and with the
    store up: 200 exactly when a row had the name, 404 otherwise and then
    the world is as before; in both cases no row has the name
    afterwards, so deleting the same name again answers 404. *)
Theorem deleteCountry_revised_reports :
  forall (n : string) (w : world),
    n <> EmptyString ->
    (r_status (fst (deleteCountry_revised true n w)) = 200%nat
     <-> Countries.has_name n (countries w))
    /\ (~ Countries.has_name n (countries w) ->
        deleteCountry_revised true n w
        = ({| r_status := 404; r_payload := RError "Country not found" |},
           w))
    /\ ~ Countries.has_name n (countries (snd (deleteCountry_revised true n w)))
    /\ fst (deleteCountry_revised true n (snd (deleteCountry_revised true n w)))
       = {| r_status := 404; r_payload := RError "Country not found" |}.
Proof.
  intros n w Hn. apply String.eqb_neq in Hn.
  assert (Hgone : forall t,
             Countries.select_by_name n (Countries.delete_by_name n t) = []).
  { intro t. rewrite select_after_delete. now rewrite String.eqb_refl. }
  assert (Hcount : forall t,
             (List.length (Countries.select_by_name n t) =? 0)%nat = true
             <-> ~ Countries.has_name n t).
  { intro t. rewrite Nat.eqb_eq. split.
    - intros H Hhas. apply CountriesFacts.select_by_name_present in Hhas. lia.
    - intro H. now rewrite CountriesFacts.select_by_name_absent. }
  unfold deleteCountry_revised. rewrite Hn.
  cbn [with_table countries fst snd].
  destruct (List.length (Countries.select_by_name n (countries w)) =? 0)%nat
    eqn:E; cbn [fst snd with_table countries r_status].
  - apply Hcount in E. repeat split.
    + discriminate.
    + intro H. contradiction.
    + intros _. rewrite delete_absent by exact E.
      now rewrite with_table_same.
    + rewrite delete_absent by exact E. exact E.
    + rewrite Hgone. reflexivity.
  - assert (Hhas : Countries.has_name n (countries w)).
    { destruct (Countries.select_by_name n (countries w)) as [|r l] eqn:S;
        [discriminate|].
      assert (Hin : In r (Countries.select_by_name n (countries w)))
        by (rewrite S; now left).
      apply filter_In in Hin as [Hin En]. apply String.eqb_eq in En.
      subst n. now apply in_map. }
    repeat split; auto.
    + intro H. contradiction.
    + apply Hcount. now rewrite Hgone.
    + rewrite Hgone. reflexivity.
Qed.

(** ** The further properties at concrete inputs *)




Lemma non_object_entry_aborts_witness :
  get (VArr [VStr "France"] []) (string_of_nat 0) = inr (VStr "France")
  /\ is_object (VStr "France") = false
  /\ iteration (rt := json_runtime) three_records_env sample_rates
               (VArr [VStr "France"] []) 0 []
     = inl TypeError.
Proof.
  assert (H1 : get (VArr [VStr "France"] []) (string_of_nat 0)
               = inr (VStr "France")) by reflexivity.
  assert (H2 : is_object (VStr "France") = false) by reflexivity.
  split; [exact H1|]. split; [exact H2|].
  exact (non_object_entry_aborts (rt := json_runtime)
           three_records_env sample_rates _ _ 0 [] H1 H2).
Defined.


Lemma upsert_fresh_appends_witness :
  execute_upsert true 100 france_params []
  = inr [france_refreshed_150000]
  /\ p_name france_params = VStr "France"
  /\ ~ Countries.has_name "France" []
  /\ exists v : Countries.new_values,
      Countries.bind_params france_params = Some v
      /\ [france_refreshed_150000] = [] ++ [Countries.inserted 100%nat v]
      /\ Countries.created_at (Countries.inserted 100%nat v) = 100%nat
      /\ List.length [france_refreshed_150000] = 1%nat.
Proof.
  assert (H1 : execute_upsert true 100 france_params []
               = inr [france_refreshed_150000]) by reflexivity.
  assert (H2 : p_name france_params = VStr "France") by reflexivity.
  assert (H3 : ~ Countries.has_name "France" []) by (intros []).
  split; [exact H1|]. split; [exact H2|]. split; [exact H3|].
  exact (upsert_fresh_appends true 100 france_params "France" [] _ H1 H2 H3).
Defined.

Lemma upsert_last_write_wins_witness :
  Countries.v_name lyon_values = Countries.v_name paris_values
  /\ Countries.upsert 30%nat paris_values
                      (Countries.upsert 20%nat lyon_values [france_row])
     = Countries.upsert 20%nat paris_values [france_row].
Proof.
  assert (H : Countries.v_name lyon_values = Countries.v_name paris_values)
    by reflexivity.
  split; [exact H|].
  exact (upsert_last_write_wins 20 30 lyon_values paris_values
                                [france_row] H).
Defined.

Lemma upsert_then_getCountry_witness :
  Countries.unique_names (countries france_world)
  /\ execute_upsert true 100 france_params (countries france_world)
     = inr [Countries.updated france_row paris_values]
  /\ p_name france_params = VStr "France"
  /\ exists v : Countries.new_values,
      Countries.bind_params france_params = Some v
      /\ getCountry
           true "France"
           (with_table france_world
                       [Countries.updated france_row paris_values])
         = Sent {| status := 200;
                   payload := Rows [Countries.updated france_row v] |}.
Proof.
  assert (H1 : Countries.unique_names (countries france_world)).
  { repeat constructor. intros []. }
  assert (H2 : execute_upsert true 100 france_params (countries france_world)
               = inr [Countries.updated france_row paris_values])
    by reflexivity.
  assert (H3 : p_name france_params = VStr "France") by reflexivity.
  split; [exact H1|]. split; [exact H2|]. split; [exact H3|].
  exact (upsert_then_getCountry true 100 france_params "France"
                                france_world _ H1 H2 H3).
Defined.

Lemma summary_agrees_with_table_witness :
  fst (postCountries (rt := json_runtime) two_records_env empty_world)
  = Sent {| status := 201; payload := Message "data refreshed" |}
  /\ exists img,
      summary_png
        (snd (postCountries (rt := json_runtime) two_records_env empty_world))
      = Some img
      /\ line_total img = 2%nat
      /\ map fst (lines_top img) = [1%nat; 2%nat].
Proof.
  assert (H : fst (postCountries (rt := json_runtime)
                                 two_records_env empty_world)
              = Sent {| status := 201; payload := Message "data refreshed" |})
    by reflexivity.
  split; [exact H|].
  destruct (summary_agrees_with_table (rt := json_runtime)
              two_records_env empty_world H)
    as [img [Himg [Htotal [Hnum _]]]].
  exists img. split; [exact Himg|]. split; [exact Htotal|exact Hnum].
Defined.

Lemma success_writes_every_record_witness :
  fetch_all two_records_env = inr (two_countries, sample_rates)
  /\ fst (postCountries (rt := json_runtime) two_records_env empty_world)
     = Sent {| status := 201; payload := Message "data refreshed" |}
  /\ forall n,
      Countries.has_name
        n (countries (snd (postCountries (rt := json_runtime)
                                         two_records_env empty_world))) ->
      Countries.has_name n (countries empty_world)
      \/ exists j p v,
          (j < 2)%nat
          /\ item_record (rt := json_runtime) two_records_env sample_rates
                         two_countries j
             = inr p
          /\ Countries.bind_params p = Some v
          /\ Countries.v_name v = n.
Proof.
  assert (H1 : fetch_all two_records_env = inr (two_countries, sample_rates))
    by reflexivity.
  assert (H2 : fst (postCountries (rt := json_runtime)
                                  two_records_env empty_world)
               = Sent {| status := 201;
                         payload := Message "data refreshed" |})
    by reflexivity.
  split; [exact H1|]. split; [exact H2|].
  exact (proj2 (success_writes_every_record
                  (rt := json_runtime) two_records_env empty_world
                  [france; antarctica] [] sample_rates H1 H2)).
Defined.

Lemma own_index_beyond j len :
  (len <= j)%nat -> own_index (string_of_nat j) len = None.
Proof.
  intro H. unfold own_index.
  destruct (find _ (seq 0 len)) as [i|] eqn:F; auto.
  apply find_some in F as [Hin E]. apply in_seq in Hin.
  apply String.eqb_eq, string_of_nat_inj in E. lia.
Qed.

Lemma item_record_beyond {rt : Runtime} e ex items j :
  (List.length items <= j)%nat ->
  item_record e ex (VArr items []) j = inl TypeError.
Proof.
  intro H. unfold item_record, get. cbn.
  rewrite own_index_beyond by exact H.
  now rewrite string_of_nat_digits.
Qed.

Lemma antarctica_only_records :
  forall data ex j p v,
    fetch_all antarctica_only_env = inr (data, ex) ->
    item_record (rt := json_runtime) antarctica_only_env ex data j = inr p ->
    Countries.bind_params p = Some v ->
    Countries.v_name v <> Countries.name france_row.
Proof.
  intros data ex j p v Hf Hr Hb.
  change (fetch_all antarctica_only_env)
    with (@inr error _ (VArr [antarctica] [], sample_rates)) in Hf.
  injection Hf as <- <-.
  destruct j as [|j].
  - vm_compute in Hr. injection Hr as <-.
    vm_compute in Hb. injection Hb as <-. discriminate.
  - rewrite item_record_beyond in Hr by (cbn; lia). discriminate.
Qed.

Lemma refresh_leaves_unmentioned_rows_witness :
  (forall data ex j p v,
      fetch_all antarctica_only_env = inr (data, ex) ->
      item_record (rt := json_runtime) antarctica_only_env ex data j
      = inr p ->
      Countries.bind_params p = Some v ->
      Countries.v_name v <> "France")
  /\ Countries.select_by_name
       "France"
       (countries (snd (postCountries (rt := json_runtime)
                                      antarctica_only_env france_world)))
     = [france_row].
Proof.
  split; [exact antarctica_only_records|].
  exact (refresh_leaves_unmentioned_rows
           (rt := json_runtime) antarctica_only_env france_world "France"
           antarctica_only_records).
Defined.

Lemma getStatus_after_refresh_witness :
  countries france_world = [france_row]
  /\ (forall data ex j p v,
         fetch_all antarctica_only_env = inr (data, ex) ->
         item_record (rt := json_runtime) antarctica_only_env ex data j
         = inr p ->
         Countries.bind_params p = Some v ->
         Countries.v_name v <> Countries.name france_row)
  /\ fst (postCountries (rt := json_runtime)
                        antarctica_only_env france_world)
     = Sent {| status := 201; payload := Message "data refreshed" |}
  /\ getStatus true (snd (postCountries (rt := json_runtime)
                                        antarctica_only_env france_world))
     = Sent {| status := 200; payload := Status 2 (Some 10%nat) |}.
Proof.
  split; [reflexivity|]. split; [exact antarctica_only_records|].
  split; [reflexivity|].
  exact (getStatus_after_refresh
           (rt := json_runtime) antarctica_only_env france_world
           france_row [] eq_refl antarctica_only_records).
Defined.

Lemma postCountries_revised_gateway_failures_witness :
  create_table_ok directory_down_env = true
  /\ countries_api directory_down_env = Rejected
  /\ postCountries_revised (rt := json_runtime) directory_down_env
                           france_world
     = (bad_gateway "Failed to fetch countries data from external API",
        france_world).
Proof.
  assert (H : create_table_ok directory_down_env = true) by reflexivity.
  split; [exact H|]. split; [reflexivity|].
  exact (proj1 (postCountries_revised_gateway_failures
                  (rt := json_runtime) directory_down_env france_world H)
               (or_introl eq_refl)).
Defined.

Lemma postCountries_revised_agrees_witness :
  countries_api two_records_env = Response 200 (Some two_countries)
  /\ (200 <= 200 <= 299)%nat
  /\ rates_api two_records_env = Response 200 (Some rates_document)
  /\ fetch_all two_records_env = inr (two_countries, sample_rates)
  /\ postCountries_revised (rt := json_runtime) two_records_env empty_world
     = postCountries (rt := json_runtime) two_records_env empty_world.
Proof.
  assert (H1 : countries_api two_records_env
               = Response 200 (Some two_countries)) by reflexivity.
  assert (H2 : (200 <= 200 <= 299)%nat) by lia.
  assert (H3 : rates_api two_records_env
               = Response 200 (Some rates_document)) by reflexivity.
  assert (H4 : fetch_all two_records_env = inr (two_countries, sample_rates))
    by reflexivity.
  repeat (split; [assumption|]).
  exact (postCountries_revised_agrees
           (rt := json_runtime) two_records_env empty_world
           200 200 _ _ _ _ H1 H2 H3 H2 H4).
Defined.

Lemma getCountry_revised_finds_witness :
  "France" <> EmptyString
  /\ Countries.has_name "France" (countries france_world)
  /\ exists r more,
      getCountry_revised true "France" france_world
      = {| r_status := 200; r_payload := RRow r |}
      /\ getCountry true "France" france_world
         = Sent {| status := 200; payload := Rows (r :: more) |}
      /\ In r (countries france_world)
      /\ Countries.name r = "France".
Proof.
  assert (H1 : "France" <> EmptyString) by discriminate.
  assert (H2 : Countries.has_name "France" (countries france_world))
    by (left; reflexivity).
  split; [exact H1|]. split; [exact H2|].
  exact (proj2 (getCountry_revised_finds "France" france_world H1) H2).
Defined.

Lemma deleteCountry_revised_reports_witness :
  "France" <> EmptyString
  /\ Countries.has_name "France" (countries france_world)
  /\ r_status (fst (deleteCountry_revised true "France" france_world))
     = 200%nat
  /\ fst (deleteCountry_revised
            true "France"
            (snd (deleteCountry_revised true "France" france_world)))
     = {| r_status := 404; r_payload := RError "Country not found" |}.
Proof.
  assert (H1 : "France" <> EmptyString) by discriminate.
  assert (H2 : Countries.has_name "France" (countries france_world))
    by (left; reflexivity).
  split; [exact H1|]. split; [exact H2|].
  destruct (deleteCountry_revised_reports "France" france_world H1)
    as [Hs [_ [_ Hagain]]].
  split; [apply Hs; exact H2|exact Hagain].
Defined.

(** ** Bodies that are no list, and the status after a run *)

Section Bodies.
Context {rt : Runtime}.

(** X26.  A directory body that is not a list goes unnoticed.  When the
    parsed body is a number, a boolean, the empty string, the empty list
    or an object without a [length], the loop takes no turn: the table is
    left as it was, and the run is answered with 201 provided the
    read-back and the renderer work. *)
Theorem refresh_of_nothing :
  forall (e : env) (w : world) (countriesData exchangeRateData : value),
    fetch_all e = inr (countriesData, exchangeRateData) ->
    (exists b, countriesData = VBool b)
    \/ (exists n, countriesData = VNum n)
    \/ countriesData = VStr EmptyString
    \/ (exists props, countriesData = VArr [] props)
    \/ (exists props, countriesData = VObj props
                      /\ assoc "length" props = None) ->
    countries (snd (postCountries e w)) = countries w
    /\ (select_all_ok e = true -> select_top5_ok e = true ->
        render_ok e = true ->
        fst (postCountries e w)
        = Sent {| status := 201; payload := Message "data refreshed" |}).
Proof.
  intros e w data ex Hf Hshape.
  assert (Hrun : postCountries e w = finish e w (countries w)).
  { unfold postCountries. rewrite Hf. unfold process_and_finish.
    destruct Hshape as [[b ->]|[[n ->]|[->|[[props ->]|[props [-> Hl]]]]]];
      try reflexivity.
    unfold get. cbn. now rewrite Hl. }
  rewrite Hrun. split.
  - apply finish_table.
  - intros H1 H2 H3. unfold finish. now rewrite H1, H2, H3.
Qed.

(** X27.  After a successful run over a list that is not empty the table
    is not empty, so [getStatus] sends its answer and does not throw. *)
Theorem getStatus_after_success :
  forall (e : env) (w : world) (item : value) (items : list value)
         (props : list (string * value)) (ex : value),
    fetch_all e = inr (VArr (item :: items) props, ex) ->
    fst (postCountries e w)
    = Sent {| status := 201; payload := Message "data refreshed" |} ->
    exists first,
      nth_error (countries (snd (postCountries e w))) 0 = Some first
      /\ getStatus true (snd (postCountries e w))
         = Sent {| status := 200;
                   payload :=
                     Status (List.length (countries (snd (postCountries e w))))
                            (Some (Countries.last_refreshed_at first)) |}.
Proof.
  intros e w item items props ex Hf H.
  destruct (success_table e w H) as [data [ex' [len [Hf' [Hlen [Hloop _]]]]]].
  rewrite Hf in Hf'. injection Hf' as <- <-.
  rewrite get_array_length in Hlen. injection Hlen as <-.
  rewrite turns_of_array in Hloop.
  destruct (process_each_committed e ex _ _ 0 (countries w) _ Hloop 0)
    as [p [v [_ [_ Hhas]]]]; [cbn; lia|].
  unfold getStatus.
  destruct (countries (snd (postCountries e w))) as [|first rest];
    [contradiction|].
  exists first. split; reflexivity.
Qed.

End Bodies.

Lemma refresh_of_nothing_witness :
  fetch_all (healthy not_found rates_200)
  = inr (VObj [("status", num 404); ("message", VStr "Not Found")],
         sample_rates)
  /\ assoc "length" [("status", num 404); ("message", VStr "Not Found")]
     = None
  /\ countries (snd (postCountries (rt := json_runtime)
                                   (healthy not_found rates_200)
                                   france_world))
     = countries france_world.
Proof.
  assert (H1 : fetch_all (healthy not_found rates_200)
               = inr (VObj [("status", num 404);
                            ("message", VStr "Not Found")],
                      sample_rates)) by reflexivity.
  assert (H2 : assoc "length" [("status", num 404);
                               ("message", VStr "Not Found")]
               = None) by reflexivity.
  split; [exact H1|]. split; [exact H2|].
  apply (refresh_of_nothing (rt := json_runtime)
                            (healthy not_found rates_200) france_world
                            _ _ H1).
  right. right. right. right. eexists. split; [reflexivity|exact H2].
Defined.

Lemma getStatus_after_success_witness :
  fetch_all two_records_env = inr (two_countries, sample_rates)
  /\ fst (postCountries (rt := json_runtime) two_records_env empty_world)
     = Sent {| status := 201; payload := Message "data refreshed" |}
  /\ exists first,
      nth_error (countries (snd (postCountries (rt := json_runtime)
                                               two_records_env empty_world)))
                0
      = Some first
      /\ getStatus true (snd (postCountries (rt := json_runtime)
                                            two_records_env empty_world))
         = Sent {| status := 200;
                   payload :=
                     Status (List.length
                               (countries
                                  (snd (postCountries (rt := json_runtime)
                                                      two_records_env
                                                      empty_world))))
                            (Some (Countries.last_refreshed_at first)) |}.
Proof.
  assert (H1 : fetch_all two_records_env = inr (two_countries, sample_rates))
    by reflexivity.
  assert (H2 : fst (postCountries (rt := json_runtime)
                                  two_records_env empty_world)
               = Sent {| status := 201;
                         payload := Message "data refreshed" |})
    by reflexivity.
  split; [exact H1|]. split; [exact H2|].
  exact (getStatus_after_success (rt := json_runtime)
                                 two_records_env empty_world
                                 france [antarctica] [] sample_rates H1 H2).
Defined.
